(** * ERD-VIZ: relationship inference, selection and join graphs

    A shallow embedding of [erd_viz.py].  The script is a Streamlit page
    that is re-run from top to bottom on every interaction; it is modelled
    as a pure function of the schema rows and of the positions picked in
    the sidebar widgets.

    - a pandas frame is the list of its rows, in row order;
    - [Series.unique] and [DataFrame.drop_duplicates] keep the first
      occurrence of every value, in order of appearance;
    - a Python exception is a [Raised] result carrying the class name;
    - a [graphviz.Digraph] is its graph attributes and the list of
      statements of its body, in the order of the calls.

    The frame is modelled twice.  [ColumnRecord] and the definitions over
    it are the script on a frame whose three columns hold text in every
    cell.  Module [Loaded] is the inference of the script on any frame
    [pd.read_csv] can load, where a cell may also be a missing value or a
    number; [text_frame_inference] shows that the two agree on a frame
    whose cells are all text. *)

From Stdlib Require Import List Finite String Ascii Bool Arith Lia Permutation.
From Stdlib Require Qcanon.
Import ListNotations.

Local Open Scope list_scope.
Local Open Scope string_scope.

(** ** Values kept first: [unique] and [drop_duplicates] *)

Section KeepFirst.
Context {A : Type}.
Variable eqb : A -> A -> bool.

Definition seen_in (x : A) (seen : list A) : bool := existsb (eqb x) seen.

(** Walk the values in order, drop the ones already seen. *)
Fixpoint unique_from (seen l : list A) : list A :=
  match l with
  | [] => []
  | x :: rest =>
      if seen_in x seen then unique_from seen rest
      else x :: unique_from (x :: seen) rest
  end.

Definition unique (l : list A) : list A := unique_from [] l.
End KeepFirst.

(** ** The schema frame (lines 5-19) *)

(** One row of the frame, restricted to the three required columns, when
    its three cells are text. *)
Record ColumnRecord := mkColumnRecord {
  Table : string;
  Column : string;
  Data_Type : string
}.

Definition df_uniqueidentifier (df : list ColumnRecord) : list ColumnRecord :=
  filter (fun r => Data_Type r =? "uniqueidentifier") df.

(** ** Inferred connections (lines 21-35) *)

Record Relationship := mkRelationship {
  from_table : string;
  from_column : string;
  to_table : string;
  to_column : string
}.

Definition Relationship_eqb (a b : Relationship) : bool :=
  (from_table a =? from_table b) && (from_column a =? from_column b) &&
  (to_table a =? to_table b) && (to_column a =? to_column b).

(** Rows of the identifier frame with the same column in another table. *)
Definition matches (dfu : list ColumnRecord) (row : ColumnRecord)
  : list ColumnRecord :=
  filter (fun m => (Column m =? Column row) && negb (Table m =? Table row)) dfu.

Definition connections (dfu : list ColumnRecord) : list Relationship :=
  flat_map
    (fun row =>
       map (fun m => mkRelationship (Table row) (Column row) (Table m) (Column m))
           (matches dfu row))
    dfu.

Definition Relationship_eq_dec (a b : Relationship) : {a = b} + {a <> b}.
Proof. decide equality; apply string_dec. Defined.

Definition drop_duplicates (l : list Relationship) : list Relationship :=
  unique Relationship_eqb l.

Definition connections_df (df : list ColumnRecord) : list Relationship :=
  drop_duplicates (connections (df_uniqueidentifier df)).

(** Cell compared with a widget value; a widget over no options gives
    [None], and no cell equals [None]. *)
Definition cell_eqb (cell : string) (picked : option string) : bool :=
  match picked with
  | Some s => cell =? s
  | None => false
  end.

(** Tables holding the picked column among the identifier rows (line 58). *)
Definition tables_with_column (dfu : list ColumnRecord)
  (selected_column : option string) : list string :=
  unique String.eqb
    (map Table (filter (fun r => cell_eqb (Column r) selected_column) dfu)).

(** ** Sidebar widgets and exceptions *)

(** [st.selectbox]: the option at the picked position, the first option
    when nothing else is picked, [None] over an empty list of options. *)
Definition selectbox (options : list string) (index : nat) : option string :=
  match options with
  | [] => None
  | first :: _ => Some (nth index options first)
  end.

Inductive result (A : Type) : Type :=
| Ok (a : A)
| Raised (exn : string).
Arguments Ok {A} a.
Arguments Raised {A} exn.

Definition bind {A B : Type} (c : result A) (k : A -> result B) : result B :=
  match c with
  | Ok a => k a
  | Raised exn => Raised exn
  end.

Notation "x <- c ;; k" := (bind c (fun x => k))
  (at level 61, c at next level, right associativity).

(** [pd.DataFrame([])] has no columns at all: when no connection was
    inferred, [connections_df['from_table']] raises [KeyError].  A frame
    built from at least one record keeps its four columns, also when a
    filter leaves it no row. *)
Definition getitem_columns (cdf : list Relationship)
  : result (list Relationship) :=
  match cdf with
  | [] => Raised "KeyError"
  | _ :: _ => Ok cdf
  end.

(** ** Filter pipeline (lines 40-90) *)

Inductive FilterType := FilterNone | TableName | ColumnName.

(** Positions picked in the sidebar widgets, one per [selectbox]. *)
Record Picks := mkPicks {
  pick_table : nat;
  pick_to_table : nat;
  pick_column : nat;
  pick_table_1 : nat;
  pick_table_2 : nat;
  pick_relationship : nat
}.

(** What the pipeline leaves behind: [selected_table] is bound in the
    table mode only, [joinable_tables] in the two filtering modes. *)
Record Selection := mkSelection {
  selected_table : option (option string);
  joinable_tables : list string;
  filtered_connections : list Relationship
}.

(** Lines 50 and 65: connections touching the table, in either direction. *)
Definition touching (table : option string) (frame : list Relationship)
  : list Relationship :=
  filter (fun r => cell_eqb (from_table r) table || cell_eqb (to_table r) table)
         frame.

(** Lines 66 and 84: the [to_table] values of the filtered frame. *)
Definition to_tables (frame : list Relationship) : list string :=
  unique String.eqb (map to_table frame).

Definition narrow_by_table (df : list ColumnRecord) (p : Picks)
  : result Selection :=
  let selected_table := selectbox (unique String.eqb (map Table df)) (pick_table p) in
  cdf <- getitem_columns (connections_df df) ;;
  let filtered_connections := touching selected_table cdf in
  let joinable_tables := to_tables filtered_connections in
  let selected_to_table := selectbox joinable_tables (pick_to_table p) in
  Ok (mkSelection (Some selected_table) joinable_tables
        (filter (fun r => cell_eqb (to_table r) selected_to_table)
                filtered_connections)).

Definition narrow_by_column (df : list ColumnRecord) (p : Picks)
  : result Selection :=
  let dfu := df_uniqueidentifier df in
  let selected_column := selectbox (unique String.eqb (map Column dfu)) (pick_column p) in
  let selected_table_1 :=
    selectbox (tables_with_column dfu selected_column) (pick_table_1 p) in
  cdf <- getitem_columns (connections_df df) ;;
  let filtered_connections_1 := touching selected_table_1 cdf in
  let joinable_tables := to_tables filtered_connections_1 in
  let selected_table_2 := selectbox joinable_tables (pick_table_2 p) in
  Ok (mkSelection None joinable_tables
        (filter (fun r => cell_eqb (to_table r) selected_table_2
                          || cell_eqb (from_table r) selected_table_2)
                filtered_connections_1)).

Definition narrow (df : list ColumnRecord) (filter_type : FilterType) (p : Picks)
  : result Selection :=
  match filter_type with
  | TableName => narrow_by_table df p
  | ColumnName => narrow_by_column df p
  | FilterNone => Ok (mkSelection None [] (connections_df df))
  end.

(** ** Relationship selection (lines 92-111) *)

Definition display_key (row : Relationship) : string :=
  from_table row ++ " (" ++ from_column row ++ ") -> "
  ++ to_table row ++ " (" ++ to_column row ++ ")".

(** Lines 101-106 on a frame that has its four columns: the rows whose
    key equals the picked string, then [.iloc[0]], which raises
    [IndexError] when no row is left.  The frame without columns, which
    [pd.DataFrame([])] gives when nothing is inferred, is not an argument
    of this lookup: [resolve] tells it apart before. *)
Definition selected_row (filtered : list Relationship)
  (selected_relationship : option string) : result Relationship :=
  match filter (fun row => cell_eqb (display_key row) selected_relationship)
               filtered with
  | [] => Raised "IndexError"
  | row :: _ => Ok row
  end.

(** Lines 94-106 on a frame that has its columns: the keys of the
    candidates are the options of the last widget. *)
Definition select_relationship (sel : Selection) (p : Picks)
  : result (Selection * Relationship) :=
  let selected_relationship :=
    selectbox (map display_key (filtered_connections sel))
              (pick_relationship p) in
  row <- selected_row (filtered_connections sel) selected_relationship ;;
  Ok (sel, row).

(** With no filter and no connection the frame has no columns: [apply]
    gives back a frame instead of a series of keys, and indexing [.loc]
    with the two-dimensional comparison raises [ValueError]. *)
Definition resolve (df : list ColumnRecord) (filter_type : FilterType)
  (p : Picks) : result (Selection * Relationship) :=
  sel <- narrow df filter_type p ;;
  match filter_type, connections_df df with
  | FilterNone, [] => Raised "ValueError"
  | _, _ => select_relationship sel p
  end.

(** ** Graphs (lines 113-160) *)

Inductive Statement :=
| Node (name label shape : string)
| Edge (tail_name head_name label : string).

Record Digraph := mkDigraph {
  graph_attr : list (string * string);
  body : list Statement
}.

Definition new_digraph : Digraph := mkDigraph [] [].

Definition attr (key value : string) (graph : Digraph) : Digraph :=
  mkDigraph (graph_attr graph ++ [(key, value)]) (body graph).

Definition node (name label : string) (graph : Digraph) : Digraph :=
  mkDigraph (graph_attr graph) (body graph ++ [Node name label "box"]).

Definition edge (tail_name head_name label : string) (graph : Digraph)
  : Digraph :=
  mkDigraph (graph_attr graph) (body graph ++ [Edge tail_name head_name label]).

Definition is_node (s : Statement) : bool :=
  match s with Node _ _ _ => true | Edge _ _ _ => false end.

Definition nodes (graph : Digraph) : list Statement :=
  filter is_node (body graph).

Definition edges (graph : Digraph) : list Statement :=
  filter (fun s => negb (is_node s)) (body graph).

(** Lines 116-123. *)
Definition joinable_tables_graph (selected_table : string)
  (joinable_tables : list string) : Digraph :=
  let graph := attr "rankdir" "LR" new_digraph in
  let graph := node selected_table selected_table graph in
  fold_left
    (fun graph table =>
       edge selected_table table "joins" (node table table graph))
    joinable_tables graph.

(** Lines 141-157. *)
Definition relationship_graph (selected_row : Relationship)
  (connections_df : list Relationship) : Digraph :=
  let from_table_ := from_table selected_row in
  let from_column_ := from_column selected_row in
  let to_table_ := to_table selected_row in
  let to_column_ := to_column selected_row in
  let graph := attr "rankdir" "LR" new_digraph in
  let graph := node from_table_ from_table_ graph in
  let graph := node to_table_ to_table_ graph in
  let graph :=
    edge from_table_ to_table_ (from_column_ ++ " → " ++ to_column_) graph in
  let downstream_connections :=
    filter (fun r => from_table r =? to_table_) connections_df in
  fold_left
    (fun graph downstream_row =>
       let downstream_table := to_table downstream_row in
       let downstream_column := to_column downstream_row in
       edge to_table_ downstream_table
            (to_column_ ++ " → " ++ downstream_column)
            (node downstream_table downstream_table graph))
    downstream_connections graph.

(** ** One run of the page *)

Record Page := mkPage {
  page_selection : Selection;
  page_relationship : Relationship;
  page_joinable_graph : option Digraph;
  page_relationship_graph : Digraph
}.

(** The joinable-tables chart is drawn only when [selected_table] is
    bound (line 115). *)
Definition run (df : list ColumnRecord) (filter_type : FilterType) (p : Picks)
  : result Page :=
  resolved <- resolve df filter_type p ;;
  let (sel, row) := resolved in
  let joinable_graph :=
    match selected_table sel with
    | Some (Some table) => Some (joinable_tables_graph table (joinable_tables sel))
    | _ => None
    end in
  Ok (mkPage sel row joinable_graph (relationship_graph row (connections_df df))).

(** ** The catalog of the running example *)

Definition uid : string := "uniqueidentifier".

Definition example_df : list ColumnRecord :=
  [ mkColumnRecord "Orders" "CustomerID" uid;
    mkColumnRecord "Customers" "CustomerID" uid;
    mkColumnRecord "Customers" "RegionID" uid;
    mkColumnRecord "Regions" "RegionID" uid ].

(** The catalog of the example with one more table that has no identifier
    column. *)
Definition audited_df : list ColumnRecord :=
  example_df ++ [ mkColumnRecord "Audit" "Note" "varchar" ].



(** ** The frame as [pd.read_csv] loads it (line 8) *)

(** A cell of the loaded frame.  With its default arguments [read_csv]
    loads a field that is blank or reads [NA], [NaN], [null] and the like
    as the missing value; a column whose present fields all read as
    numbers (or all as booleans) is loaded as numbers, by value, so that
    the fields [1] and [01] are the same cell; any other field is kept as
    the text it is. *)
Inductive Cell :=
| Text (s : string)
| NaN
| Number (v : Qcanon.Qc)
| Flag (b : bool).

(** The same value: [unique] and [drop_duplicates] take two missing
    values for the same value. *)
Definition same_cell (a b : Cell) : bool :=
  match a, b with
  | Text s, Text s' => s =? s'
  | NaN, NaN => true
  | Number v, Number v' => Qcanon.Qc_eq_bool v v'
  | Flag b, Flag b' => Bool.eqb b b'
  | _, _ => false
  end.

(** Elementwise [==]: a missing value equals nothing, not even itself. *)
Definition cell_eq (a b : Cell) : bool :=
  match a, b with
  | NaN, _ => false
  | _, NaN => false
  | _, _ => same_cell a b
  end.

(** Elementwise [!=]. *)
Definition cell_ne (a b : Cell) : bool := negb (cell_eq a b).

Definition is_text (c : Cell) : bool :=
  match c with Text _ => true | _ => false end.

Definition text_of (c : Cell) : string :=
  match c with Text s => s | _ => "" end.

Module Loaded.

Record ColumnRecord := mkColumnRecord {
  Table : Cell;
  Column : Cell;
  Data_Type : Cell
}.

(** Line 19. *)
Definition df_uniqueidentifier (df : list ColumnRecord) : list ColumnRecord :=
  filter (fun r => cell_eq (Data_Type r) (Text "uniqueidentifier")) df.

Record Relationship := mkRelationship {
  from_table : Cell;
  from_column : Cell;
  to_table : Cell;
  to_column : Cell
}.

Definition Relationship_eqb (a b : Relationship) : bool :=
  same_cell (from_table a) (from_table b)
  && same_cell (from_column a) (from_column b)
  && same_cell (to_table a) (to_table b)
  && same_cell (to_column a) (to_column b).

(** Line 25. *)
Definition matches (dfu : list ColumnRecord) (row : ColumnRecord)
  : list ColumnRecord :=
  filter (fun m => cell_eq (Column m) (Column row)
                   && cell_ne (Table m) (Table row)) dfu.

(** Lines 22-32. *)
Definition connections (dfu : list ColumnRecord) : list Relationship :=
  flat_map
    (fun row =>
       map (fun m => mkRelationship (Table row) (Column row) (Table m) (Column m))
           (matches dfu row))
    dfu.

Definition drop_duplicates (l : list Relationship) : list Relationship :=
  unique Relationship_eqb l.

(** Line 35. *)
Definition connections_df (df : list ColumnRecord) : list Relationship :=
  drop_duplicates (connections (df_uniqueidentifier df)).

Definition selectbox (options : list Cell) (index : nat) : option Cell :=
  match options with
  | [] => None
  | first :: _ => Some (nth index options first)
  end.

(** Line 54: the options of the column widget. *)
Definition column_options (dfu : list ColumnRecord) : list Cell :=
  unique same_cell (map Column dfu).

Definition picked_eq (cell : Cell) (picked : option Cell) : bool :=
  match picked with
  | Some c => cell_eq cell c
  | None => false
  end.

(** Line 58. *)
Definition tables_with_column (dfu : list ColumnRecord)
  (selected_column : option Cell) : list Cell :=
  unique same_cell
    (map Table (filter (fun r => picked_eq (Column r) selected_column) dfu)).

Definition all_text (df : list ColumnRecord) : bool :=
  forallb (fun r => is_text (Table r) && is_text (Column r)
                    && is_text (Data_Type r)) df.

End Loaded.

(** A row of text cells as a loaded row, and back. *)
Definition loaded_row (r : ColumnRecord) : Loaded.ColumnRecord :=
  Loaded.mkColumnRecord (Text (Table r)) (Text (Column r)) (Text (Data_Type r)).

Definition text_row (r : Loaded.ColumnRecord) : ColumnRecord :=
  mkColumnRecord (text_of (Loaded.Table r)) (text_of (Loaded.Column r))
                 (text_of (Loaded.Data_Type r)).

Definition loaded_relationship (r : Relationship) : Loaded.Relationship :=
  Loaded.mkRelationship (Text (from_table r)) (Text (from_column r))
                        (Text (to_table r)) (Text (to_column r)).

Definition Loaded_Relationship_eq_dec (a b : Loaded.Relationship)
  : {a = b} + {a <> b}.
Proof.
  decide equality; decide equality;
    first [apply string_dec | apply Qcanon.Qc_eq_dec | apply bool_dec].
Defined.

(** All ordered pairs of distinct members of a list. *)
Definition ordered_pairs {A B : Type} (same : A -> A -> bool)
  (pair : A -> A -> B) (tabs : list A) : list B :=
  flat_map
    (fun a => map (pair a) (filter (fun b => negb (same b a)) tabs))
    tabs.

(** A catalog with a table whose only identifier column is shared with no
    other table. *)
Definition logged_df : list ColumnRecord :=
  example_df ++ [ mkColumnRecord "Logs" "LogID" uid ].

(** * Facts *)

(** ** Keeping first occurrences *)

Section KeepFirstFacts.
Context {A : Type}.
Variable eqb : A -> A -> bool.
Hypothesis eqb_eq : forall x y, eqb x y = true <-> x = y.

Lemma seen_in_true x seen : seen_in eqb x seen = true <-> In x seen.
Proof.
  unfold seen_in. rewrite existsb_exists. split.
  - intros [y [Hy He]]. apply eqb_eq in He. now subst.
  - intros H. exists x. split; [assumption | now apply eqb_eq].
Qed.

Lemma seen_in_false x seen : seen_in eqb x seen = false <-> ~ In x seen.
Proof.
  rewrite <- seen_in_true. destruct (seen_in eqb x seen); split; congruence.
Qed.

Lemma in_unique_from x l :
  forall seen, In x (unique_from eqb seen l) <-> In x l /\ ~ In x seen.
Proof.
  induction l as [|a l IH]; intros seen; simpl.
  - tauto.
  - destruct (seen_in eqb a seen) eqn:E.
    + apply seen_in_true in E. rewrite IH. split.
      * intros [H1 H2]. tauto.
      * intros [[Hax|H1] H2]; [subst; tauto | tauto].
    + apply seen_in_false in E. simpl. rewrite IH. simpl. split.
      * intros [Hax|[H1 H2]]; [subst; tauto | tauto].
      * intros [[Hax|H1] H2]; [tauto|].
        destruct (eqb a x) eqn:Eax.
        -- apply eqb_eq in Eax. tauto.
        -- right. split; [assumption|]. intros [Hax|Hs]; [|tauto].
           apply eqb_eq in Hax. congruence.
Qed.

Lemma in_unique x l : In x (unique eqb l) <-> In x l.
Proof. unfold unique. rewrite in_unique_from. simpl. tauto. Qed.

Lemma NoDup_unique_from l : forall seen, NoDup (unique_from eqb seen l).
Proof.
  induction l as [|a l IH]; intros seen; simpl.
  - constructor.
  - destruct (seen_in eqb a seen); [apply IH|].
    constructor; [|apply IH].
    rewrite in_unique_from. simpl. tauto.
Qed.

Lemma NoDup_unique l : NoDup (unique eqb l).
Proof. apply NoDup_unique_from. Qed.

Lemma unique_nil_iff l : unique eqb l = [] <-> l = [].
Proof.
  split; [|intros ->; reflexivity].
  destruct l; [reflexivity | discriminate].
Qed.
End KeepFirstFacts.

Lemma Relationship_eqb_eq a b : Relationship_eqb a b = true <-> a = b.
Proof.
  unfold Relationship_eqb. rewrite !andb_true_iff, !String.eqb_eq.
  destruct a, b; simpl. split.
  - intros [[[-> ->] ->] ->]. reflexivity.
  - intros H. injection H as -> -> -> ->. auto.
Qed.

Lemma cell_eqb_Some cell s : cell_eqb cell (Some s) = true <-> cell = s.
Proof. simpl. apply String.eqb_eq. Qed.

(** ** Inference *)

Lemma in_df_uniqueidentifier df row :
  In row (df_uniqueidentifier df) <->
  In row df /\ Data_Type row = "uniqueidentifier".
Proof.
  unfold df_uniqueidentifier. rewrite filter_In, String.eqb_eq. reflexivity.
Qed.

Lemma in_matches dfu row m :
  In m (matches dfu row) <->
  In m dfu /\ Column m = Column row /\ Table m <> Table row.
Proof.
  unfold matches.
  rewrite filter_In, andb_true_iff, negb_true_iff, String.eqb_eq, String.eqb_neq.
  reflexivity.
Qed.

Lemma in_connections dfu r :
  In r (connections dfu) <->
  exists row m,
    In row dfu /\ In m dfu /\ Column m = Column row /\ Table m <> Table row /\
    r = mkRelationship (Table row) (Column row) (Table m) (Column m).
Proof.
  unfold connections. rewrite in_flat_map. split.
  - intros [row [Hrow Hr]]. apply in_map_iff in Hr as [m [<- Hm]].
    apply in_matches in Hm as (Hm & Hc & Ht). exists row, m. auto.
  - intros (row & m & Hrow & Hm & Hc & Ht & ->). exists row. split; [assumption|].
    apply in_map_iff. exists m. split; [reflexivity|].
    apply in_matches. auto.
Qed.

Lemma in_connections_df df r :
  In r (connections_df df) <-> In r (connections (df_uniqueidentifier df)).
Proof.
  unfold connections_df, drop_duplicates.
  apply in_unique, Relationship_eqb_eq.
Qed.

Lemma NoDup_connections_df df : NoDup (connections_df df).
Proof. apply NoDup_unique, Relationship_eqb_eq. Qed.

Lemma connections_df_same_column df r :
  In r (connections_df df) -> from_column r = to_column r.
Proof.
  rewrite in_connections_df, in_connections.
  intros (row & m & _ & _ & Hc & _ & ->). simpl. auto.
Qed.


Lemma in_tables_with_column dfu c t :
  In t (tables_with_column dfu (Some c)) <->
  exists row, In row dfu /\ Column row = c /\ Table row = t.
Proof.
  unfold tables_with_column.
  rewrite (in_unique String.eqb String.eqb_eq), in_map_iff.
  split; intros [row H]; exists row; rewrite filter_In, cell_eqb_Some in *; tauto.
Qed.

(** ** Claims on the inferred set *)



(** ** Joinable tables *)

Lemma in_touching t frame r :
  In r (touching (Some t) frame) <->
  In r frame /\ (from_table r = t \/ to_table r = t).
Proof.
  unfold touching.
  rewrite filter_In, orb_true_iff, !cell_eqb_Some. reflexivity.
Qed.

Lemma touching_None frame : touching None frame = [].
Proof. unfold touching. induction frame; simpl; auto. Qed.

Lemma in_to_tables frame x :
  In x (to_tables frame) <-> exists r, In r frame /\ to_table r = x.
Proof.
  unfold to_tables. rewrite (in_unique String.eqb String.eqb_eq), in_map_iff.
  split; intros [r H]; exists r; tauto.
Qed.

Lemma to_tables_nil_iff frame : to_tables frame = [] <-> frame = [].
Proof.
  unfold to_tables. rewrite unique_nil_iff. split.
  - apply map_eq_nil.
  - intros ->. reflexivity.
Qed.

Lemma example_connections_df :
  connections_df example_df =
  [ mkRelationship "Orders" "CustomerID" "Customers" "CustomerID";
    mkRelationship "Customers" "CustomerID" "Orders" "CustomerID";
    mkRelationship "Customers" "RegionID" "Regions" "RegionID";
    mkRelationship "Regions" "RegionID" "Customers" "RegionID" ].
Proof. reflexivity. Qed.

(** C2, as stated, fails: with anchor [Orders] in the example catalog the
    joinable tables are [Customers; Orders], and no relationship leaves
    [Orders] for [Orders]. *)
Lemma joinable_tables_not_directional :
  ~ (forall t x,
       In x (to_tables (touching (Some t) (connections_df example_df))) ->
       exists r, In r (connections_df example_df) /\
                 from_table r = t /\ to_table r = x).
Proof.
  intros H.
  destruct (H "Orders" "Orders") as (r & Hr & Hf & Ht).
  - vm_compute. auto.
  - rewrite example_connections_df in Hr. simpl in Hr.
    destruct Hr as [<-|[<-|[<-|[<-|[]]]]]; discriminate.
Qed.

(** C2, amended: every joinable table offered for anchor [t] is either the
    [to_table] of a relationship leaving [t], or [t] itself; the anchor is
    the only table that comes from the relationships entering [t]. *)
Theorem joinable_tables_partner_or_anchor (df : list ColumnRecord) (t x : string) :
  In x (to_tables (touching (Some t) (connections_df df))) ->
  x = t \/
  exists r, In r (connections_df df) /\ from_table r = t /\ to_table r = x.
Proof.
  rewrite in_to_tables. intros (r & Hr & <-).
  apply in_touching in Hr as [Hr [Hf|Ht]].
  - right. exists r. auto.
  - left. assumption.
Qed.

Lemma joinable_tables_partner_or_anchor_witness :
  In "Customers" (to_tables (touching (Some "Orders") (connections_df example_df)))
  /\ ("Customers" = "Orders" \/
      exists r, In r (connections_df example_df) /\
                from_table r = "Orders" /\ to_table r = "Customers").
Proof.
  assert (H : In "Customers"
                 (to_tables (touching (Some "Orders") (connections_df example_df))))
    by (vm_compute; auto).
  split; [exact H|].
  exact (joinable_tables_partner_or_anchor example_df "Orders" "Customers" H).
Defined.

(** ** Graph bodies *)

Lemma joinable_fold_body anchor l :
  forall graph,
    body (fold_left
            (fun graph table =>
               edge anchor table "joins" (node table table graph))
            l graph)
    = (body graph
       ++ flat_map (fun table => [Node table table "box";
                                  Edge anchor table "joins"]) l)%list.
Proof.
  induction l as [|t l IH]; intros graph; simpl.
  - now rewrite app_nil_r.
  - rewrite IH. simpl. now rewrite <- !app_assoc.
Qed.

Lemma joinable_tables_graph_body anchor l :
  body (joinable_tables_graph anchor l)
  = Node anchor anchor "box"
    :: flat_map (fun table => [Node table table "box";
                               Edge anchor table "joins"]) l.
Proof. unfold joinable_tables_graph. now rewrite joinable_fold_body. Qed.

Lemma downstream_fold_body tail_name column l :
  forall graph,
    body (fold_left
            (fun graph downstream_row =>
               edge tail_name (to_table downstream_row)
                    (column ++ " → " ++ to_column downstream_row)
                    (node (to_table downstream_row) (to_table downstream_row)
                          graph))
            l graph)
    = (body graph
       ++ flat_map
            (fun d => [Node (to_table d) (to_table d) "box";
                       Edge tail_name (to_table d)
                            (column ++ " → " ++ to_column d)]) l)%list.
Proof.
  induction l as [|d l IH]; intros graph; simpl.
  - now rewrite app_nil_r.
  - rewrite IH. simpl. now rewrite <- !app_assoc.
Qed.

Lemma edges_flat_map_pair {X : Type} (n e : X -> Statement) l :
  (forall x, is_node (n x) = true) -> (forall x, is_node (e x) = false) ->
  filter (fun s => negb (is_node s)) (flat_map (fun x => [n x; e x]) l)
  = map e l.
Proof.
  intros Hn He. induction l as [|x l IH]; simpl; [reflexivity|].
  rewrite Hn, He. simpl. now rewrite IH.
Qed.

(** The edges of the relationship graph: the edge of the selected row,
    then one edge per connection leaving its [to_table]. *)
Lemma relationship_graph_edges row cdf :
  edges (relationship_graph row cdf)
  = Edge (from_table row) (to_table row)
         (from_column row ++ " → " ++ to_column row)
    :: map (fun d => Edge (to_table row) (to_table d)
                          (to_column row ++ " → " ++ to_column d))
           (filter (fun r => from_table r =? to_table row) cdf).
Proof.
  unfold edges, relationship_graph. rewrite downstream_fold_body. simpl.
  f_equal.
  apply (edges_flat_map_pair
           (fun d => Node (to_table d) (to_table d) "box")
           (fun d => Edge (to_table row) (to_table d)
                          (to_column row ++ " → " ++ to_column d)));
    reflexivity.
Qed.

Lemma joinable_tables_graph_edges anchor l :
  edges (joinable_tables_graph anchor l)
  = map (fun table => Edge anchor table "joins") l.
Proof.
  unfold edges. rewrite joinable_tables_graph_body. simpl.
  apply (edges_flat_map_pair (fun table => Node table table "box")
                             (fun table => Edge anchor table "joins"));
    reflexivity.
Qed.

(** ** Claims on the graphs *)

(** C4, on the code: for the selected row Orders -> Customers of the
    example the edge Customers -> Regions carries the label
    "CustomerID → RegionID": its left half is the [to_column] of the
    selected row, not the [from_column] of the downstream row. *)
Theorem downstream_edge_label_of_example :
  let seed := mkRelationship "Orders" "CustomerID" "Customers" "CustomerID" in
  let downstream := mkRelationship "Customers" "RegionID" "Regions" "RegionID" in
  let graph := relationship_graph seed (connections_df example_df) in
  In downstream (connections_df example_df)
  /\ edges graph
     = [ Edge "Orders" "Customers" "CustomerID → CustomerID";
         Edge "Customers" "Orders" "CustomerID → CustomerID";
         Edge "Customers" "Regions" "CustomerID → RegionID" ]
  /\ ~ In (Edge "Customers" "Regions"
                (from_column downstream ++ " → " ++ to_column downstream))
          (edges graph).
Proof.
  split; [vm_compute; auto|]. split; [reflexivity|].
  vm_compute. intros [H|[H|[H|[]]]]; discriminate H.
Qed.

(** ** Claims on the selection pipeline *)

(** C3, on the code: in the column mode with column [CustomerID], first
    table [Customers] and second table [Regions], the candidates are the
    two relationships on [RegionID], and the relationship resolved is on
    [RegionID]: the frame of line 65 is filtered by table only. *)
Theorem by_column_candidates_of_example :
  let p := mkPicks 0 0 0 1 2 0 in
  let on_region := mkRelationship "Customers" "RegionID" "Regions" "RegionID" in
  selectbox (unique String.eqb (map Column (df_uniqueidentifier example_df)))
            (pick_column p) = Some "CustomerID"
  /\ narrow example_df ColumnName p
     = Ok (mkSelection None ["Customers"; "Orders"; "Regions"]
             [ on_region;
               mkRelationship "Regions" "RegionID" "Customers" "RegionID" ])
  /\ (exists sel, resolve example_df ColumnName p = Ok (sel, on_region))
  /\ from_column on_region <> "CustomerID"
  /\ to_column on_region <> "CustomerID".
Proof.
  repeat split; try reflexivity; try discriminate.
  eexists. reflexivity.
Qed.

Lemma narrow_filtering_inv df filter_type p sel :
  filter_type <> FilterNone ->
  narrow df filter_type p = Ok sel ->
  exists table narrowed,
    connections_df df <> [] /\
    joinable_tables sel = to_tables (touching table (connections_df df)) /\
    filtered_connections sel
    = filter narrowed (touching table (connections_df df)).
Proof.
  intros Hmode. destruct filter_type; [congruence | |]; simpl.
  - unfold narrow_by_table.
    destruct (connections_df df) as [|r cdf]; simpl; [discriminate|].
    intros H. injection H as <-. simpl.
    eexists _, _. split; [discriminate|]. split; reflexivity.
  - unfold narrow_by_column.
    destruct (connections_df df) as [|r cdf]; simpl; [discriminate|].
    intros H. injection H as <-. simpl.
    eexists _, _. split; [discriminate|]. split; reflexivity.
Qed.

Lemma resolve_filtering df filter_type p sel :
  filter_type <> FilterNone ->
  narrow df filter_type p = Ok sel ->
  resolve df filter_type p = select_relationship sel p.
Proof.
  intros Hmode Hsel. unfold resolve. rewrite Hsel. unfold bind.
  destruct filter_type; [congruence | reflexivity | reflexivity].
Qed.

(** C5, as stated, fails: in the table mode with the table [Audit], which
    has no identifier column, the second-table step is reached, there is
    no joinable table, and the run ends in [IndexError]. *)
Lemma empty_joinable_raises_index_error :
  let p := mkPicks 3 0 0 0 0 0 in
  selectbox (unique String.eqb (map Table audited_df)) (pick_table p)
  = Some "Audit"
  /\ narrow audited_df TableName p = Ok (mkSelection (Some (Some "Audit")) [] [])
  /\ resolve audited_df TableName p = Raised "IndexError"
  /\ resolve audited_df TableName p <> Raised "NoJoinableTable".
Proof. repeat split; discriminate. Qed.

(** C5, amended: when the second-table step is reached in the table or
    the column mode and there is no joinable table, the second-table
    widget has no option and gives [None], the candidates narrow to the
    empty frame, and no relationship is resolved: the run ends in the
    [IndexError] of the row lookup; no dedicated error is raised. *)
Theorem empty_joinable_no_relationship (df : list ColumnRecord)
  (filter_type : FilterType) (p : Picks) (sel : Selection) :
  filter_type <> FilterNone ->
  narrow df filter_type p = Ok sel ->
  joinable_tables sel = [] ->
  (forall index, selectbox (joinable_tables sel) index = None)
  /\ filtered_connections sel = []
  /\ resolve df filter_type p = Raised "IndexError"
  /\ run df filter_type p = Raised "IndexError".
Proof.
  intros Hmode Hsel Hjoin.
  destruct (narrow_filtering_inv df filter_type p sel Hmode Hsel)
    as (table & narrowed & _ & Hj & Hf).
  rewrite Hjoin in Hj. symmetry in Hj. apply to_tables_nil_iff in Hj.
  rewrite Hj in Hf. simpl in Hf.
  assert (Hres : resolve df filter_type p = Raised "IndexError").
  { rewrite (resolve_filtering df filter_type p sel Hmode Hsel).
    unfold select_relationship. rewrite Hf. reflexivity. }
  repeat split.
  - intros index. now rewrite Hjoin.
  - assumption.
  - assumption.
  - unfold run. now rewrite Hres.
Qed.

Lemma empty_joinable_no_relationship_witness :
  let p := mkPicks 0 0 2 0 0 0 in
  let df := (audited_df ++ [ mkColumnRecord "Audit" "AuditID" uid ])%list in
  let sel := mkSelection None [] [] in
  (ColumnName <> FilterNone
   /\ narrow df ColumnName p = Ok sel
   /\ joinable_tables sel = [])
  /\ resolve df ColumnName p = Raised "IndexError".
Proof.
  intros p df sel.
  assert (Hmode : ColumnName <> FilterNone) by discriminate.
  assert (Hsel : narrow df ColumnName p = Ok sel) by reflexivity.
  assert (Hjoin : joinable_tables sel = []) by reflexivity.
  split; [auto|].
  exact (proj1 (proj2 (proj2
           (empty_joinable_no_relationship df ColumnName p sel Hmode Hsel
              Hjoin)))).
Defined.

(** ** The row lookup *)

Lemma selected_row_head filtered picked r :
  selected_row filtered picked = Ok r ->
  In r filtered /\ picked = Some (display_key r).
Proof.
  unfold selected_row.
  destruct (filter _ filtered) as [|x rest] eqn:E; [discriminate|].
  intros H. injection H as <-.
  assert (Hin : In x (filter (fun row => cell_eqb (display_key row) picked)
                             filtered)) by (rewrite E; simpl; auto).
  apply filter_In in Hin as [Hin Hk]. split; [assumption|].
  destruct picked as [s|]; [|discriminate].
  apply cell_eqb_Some in Hk. now subst.
Qed.

(** The row found is the first candidate carrying the picked key. *)
Lemma selected_row_Ok_iff filtered chosen r :
  selected_row filtered (Some chosen) = Ok r <->
  exists before after,
    filtered = (before ++ r :: after)%list /\
    display_key r = chosen /\
    Forall (fun x => display_key x <> chosen) before.
Proof.
  unfold selected_row. induction filtered as [|x l IH]; simpl.
  - split; [discriminate|]. intros (before & after & H & _).
    destruct before; discriminate.
  - destruct (display_key x =? chosen) eqn:E.
    + apply String.eqb_eq in E. split.
      * intros H. injection H as <-. exists [], l. auto.
      * intros (before & after & H & Hk & Hb).
        destruct before as [|y before]; simpl in H; injection H as <- _.
        -- reflexivity.
        -- inversion Hb; subst. contradiction.
    + apply String.eqb_neq in E. rewrite IH. split.
      * intros (before & after & -> & Hk & Hb).
        exists (x :: before), after. auto.
      * intros (before & after & H & Hk & Hb).
        destruct before as [|y before]; simpl in H; injection H as <- ->.
        -- contradiction.
        -- inversion Hb; subst. exists before, after. auto.
Qed.

Lemma selected_row_Raised filtered picked exn :
  selected_row filtered picked = Raised exn -> exn = "IndexError".
Proof.
  unfold selected_row. destruct (filter _ filtered); [|discriminate].
  intros H. now injection H.
Qed.

Lemma selected_row_IndexError_iff filtered chosen :
  selected_row filtered (Some chosen) = Raised "IndexError" <->
  forall r, In r filtered -> display_key r <> chosen.
Proof.
  unfold selected_row. split.
  - destruct (filter _ filtered) as [|x rest] eqn:E; [|discriminate].
    intros _ r Hr Hk.
    assert (Hin : In r (filter (fun row => cell_eqb (display_key row)
                                                    (Some chosen)) filtered))
      by (apply filter_In; split; [assumption | now apply cell_eqb_Some]).
    rewrite E in Hin. destruct Hin.
  - intros H. destruct (filter _ filtered) as [|x rest] eqn:E; [reflexivity|].
    assert (Hin : In x (filter (fun row => cell_eqb (display_key row)
                                                    (Some chosen)) filtered))
      by (rewrite E; simpl; auto).
    apply filter_In in Hin as [Hin Hk]. apply cell_eqb_Some in Hk.
    exfalso. exact (H x Hin Hk).
Qed.

Lemma select_relationship_Ok_inv sel0 p sel r :
  select_relationship sel0 p = Ok (sel, r) ->
  sel0 = sel /\ In r (filtered_connections sel) /\
  selectbox (map display_key (filtered_connections sel)) (pick_relationship p)
  = Some (display_key r).
Proof.
  unfold select_relationship.
  destruct (selected_row _ _) as [row|exn] eqn:E; simpl; [|discriminate].
  intros H. injection H as <- <-.
  apply selected_row_head in E as [Hin Hk]. auto.
Qed.

Lemma select_relationship_Raised_inv sel0 p exn :
  select_relationship sel0 p = Raised exn -> exn = "IndexError".
Proof.
  unfold select_relationship.
  destruct (selected_row _ _) as [row|e] eqn:E; simpl; [discriminate|].
  intros H. injection H as <-. now apply selected_row_Raised in E.
Qed.

Lemma narrow_Raised_inv df filter_type p exn :
  narrow df filter_type p = Raised exn -> exn = "KeyError".
Proof.
  destruct filter_type; simpl; [discriminate | |].
  - unfold narrow_by_table. destruct (connections_df df); simpl;
      [|discriminate].
    intros H. now injection H.
  - unfold narrow_by_column. destruct (connections_df df); simpl;
      [|discriminate].
    intros H. now injection H.
Qed.

Lemma resolve_Ok_inv df filter_type p sel r :
  resolve df filter_type p = Ok (sel, r) ->
  narrow df filter_type p = Ok sel /\
  In r (filtered_connections sel) /\
  selectbox (map display_key (filtered_connections sel)) (pick_relationship p)
  = Some (display_key r).
Proof.
  unfold resolve. destruct (narrow df filter_type p) as [sel0|exn];
    [|discriminate].
  unfold bind. intros H.
  assert (Hsel : select_relationship sel0 p = Ok (sel, r)).
  { destruct filter_type; try exact H.
    destruct (connections_df df); [discriminate | exact H]. }
  apply select_relationship_Ok_inv in Hsel as (-> & Hin & Hk). auto.
Qed.

Lemma resolve_Raised_inv df filter_type p exn :
  resolve df filter_type p = Raised exn ->
  exn = "KeyError" \/ exn = "ValueError" \/ exn = "IndexError".
Proof.
  unfold resolve. destruct (narrow df filter_type p) as [sel0|e] eqn:En.
  - unfold bind. intros H.
    assert (Hcases : Raised (A := Selection * Relationship) "ValueError"
                     = Raised exn
                     \/ select_relationship sel0 p = Raised exn).
    { destruct filter_type; auto. destruct (connections_df df); auto. }
    destruct Hcases as [Hv|Hs].
    + injection Hv as <-. auto.
    + apply select_relationship_Raised_inv in Hs. auto.
  - unfold bind. intros H. injection H as <-.
    apply narrow_Raised_inv in En. auto.
Qed.

(** ** A full run in the table mode *)

Lemma getitem_columns_Ok cdf : cdf <> [] -> getitem_columns cdf = Ok cdf.
Proof. destruct cdf; [congruence | reflexivity]. Qed.

Lemma selectbox_In options index s :
  selectbox options index = Some s -> In s options.
Proof.
  destruct options as [|first rest]; [discriminate|].
  unfold selectbox. intros H. injection H as <-.
  destruct (Nat.lt_ge_cases index (List.length (first :: rest))) as [Hlt|Hge].
  - exact (nth_In (first :: rest) first Hlt).
  - change (In (nth index (first :: rest) first) (first :: rest)).
    rewrite (nth_overflow (first :: rest) first Hge). left. reflexivity.
Qed.

Lemma selectbox_Some options index :
  options <> [] -> exists s, selectbox options index = Some s.
Proof.
  destruct options as [|first rest]; [congruence|].
  intros _. simpl. eauto.
Qed.

(** Over a frame with at least one row the last widget gives the key of
    a candidate, and the lookup finds a row. *)
Lemma select_relationship_Ok sel p :
  filtered_connections sel <> [] ->
  exists row, select_relationship sel p = Ok (sel, row).
Proof.
  intros Hne. unfold select_relationship.
  destruct (selectbox_Some (map display_key (filtered_connections sel))
              (pick_relationship p)) as [k Hk].
  { intros H. apply map_eq_nil in H. contradiction. }
  rewrite Hk. apply selectbox_In, in_map_iff in Hk as (row & Hkey & Hin).
  destruct (selected_row (filtered_connections sel) (Some k)) as [found|exn] eqn:E.
  - exists found. reflexivity.
  - pose proof (selected_row_Raised _ _ _ E) as ->.
    exfalso. exact (proj1 (selected_row_IndexError_iff _ _) E row Hin Hkey).
Qed.




(** * Further properties of the code *)

(** ** Deduplication and inference *)

Section KeepFirstNoDup.
Context {A : Type}.
Variable eqb : A -> A -> bool.
Hypothesis eqb_eq : forall x y, eqb x y = true <-> x = y.

Lemma unique_from_NoDup l :
  forall seen,
    NoDup l -> (forall x, In x l -> ~ In x seen) -> unique_from eqb seen l = l.
Proof.
  induction l as [|a l IH]; intros seen Hnd Hfresh; simpl; [reflexivity|].
  inversion Hnd as [|? ? Ha Hnd']; subst.
  assert (E : seen_in eqb a seen = false).
  { apply (seen_in_false eqb eqb_eq). apply Hfresh. simpl; auto. }
  rewrite E. f_equal. apply IH; [assumption|].
  intros x Hx [Hax|Hs].
  - subst. contradiction.
  - apply (Hfresh x); simpl; auto.
Qed.

Lemma unique_NoDup l : NoDup l -> unique eqb l = l.
Proof. intros H. apply unique_from_NoDup; auto. Qed.
End KeepFirstNoDup.

(** X1: removing duplicates twice gives the same frame, rows and order,
    as removing them once. *)
Theorem drop_duplicates_idempotent (l : list Relationship) :
  drop_duplicates (drop_duplicates l) = drop_duplicates l.
Proof.
  unfold drop_duplicates.
  apply (unique_NoDup Relationship_eqb Relationship_eqb_eq).
  apply (NoDup_unique Relationship_eqb Relationship_eqb_eq).
Qed.

(** X2: the two columns of an inferred relationship have the same name,
    and each is a row of the schema with the type [uniqueidentifier] in
    its table. *)
Theorem connections_df_identifier_columns (df : list ColumnRecord)
  (r : Relationship) :
  In r (connections_df df) ->
  from_column r = to_column r
  /\ In (mkColumnRecord (from_table r) (from_column r) "uniqueidentifier") df
  /\ In (mkColumnRecord (to_table r) (to_column r) "uniqueidentifier") df.
Proof.
  rewrite in_connections_df, in_connections.
  intros (row & m & Hrow & Hm & Hc & _ & ->). simpl.
  apply in_df_uniqueidentifier in Hrow as [Hrow Hty].
  apply in_df_uniqueidentifier in Hm as [Hm Hty'].
  destruct row as [t c ty], m as [t' c' ty']. simpl in *. subst.
  auto.
Qed.

Lemma connections_df_identifier_columns_witness :
  let r := mkRelationship "Regions" "RegionID" "Customers" "RegionID" in
  In r (connections_df example_df)
  /\ In (mkColumnRecord "Regions" "RegionID" "uniqueidentifier") example_df.
Proof.
  intros r.
  assert (H : In r (connections_df example_df)) by (vm_compute; auto).
  split; [exact H|].
  exact (proj1 (proj2 (connections_df_identifier_columns example_df r H))).
Defined.



Lemma connections_df_incl df df' :
  incl df df' -> incl (connections_df df) (connections_df df').
Proof.
  intros Hincl r. rewrite !in_connections_df, !in_connections.
  intros (row & m & Hrow & Hm & H). exists row, m.
  apply in_df_uniqueidentifier in Hrow as [Hrow Hty].
  apply in_df_uniqueidentifier in Hm as [Hm Hty'].
  split; [apply in_df_uniqueidentifier; auto|].
  split; [apply in_df_uniqueidentifier; auto | exact H].
Qed.

(** X4: adding rows to the schema never removes an inferred
    relationship. *)
Theorem connections_df_monotone (df df' : list ColumnRecord) :
  incl df df' -> incl (connections_df df) (connections_df df').
Proof. apply connections_df_incl. Qed.

Lemma connections_df_monotone_witness :
  incl example_df audited_df
  /\ incl (connections_df example_df) (connections_df audited_df).
Proof.
  assert (H : incl example_df audited_df).
  { intros x Hx. unfold audited_df. apply in_or_app. auto. }
  split; [exact H|].
  exact (connections_df_monotone example_df audited_df H).
Defined.

(** X5: two schemas with the same set of rows, whatever the order and the
    repetitions, give the same relationships up to the order of the
    rows. *)
Theorem connections_df_same_rows (df df' : list ColumnRecord) :
  (forall x, In x df <-> In x df') ->
  Permutation (connections_df df) (connections_df df').
Proof.
  intros H. apply NoDup_Permutation; try apply NoDup_connections_df.
  intros r. split; apply connections_df_incl; intros x Hx; now apply H.
Qed.

Lemma connections_df_same_rows_witness :
  let df' := (rev example_df ++ example_df)%list in
  (forall x, In x example_df <-> In x df')
  /\ Permutation (connections_df example_df) (connections_df df').
Proof.
  intros df'.
  assert (H : forall x, In x example_df <-> In x df').
  { intros x. unfold df'. rewrite in_app_iff, <- in_rev. tauto. }
  split; [exact H|].
  exact (connections_df_same_rows example_df df' H).
Defined.

Lemma df_uniqueidentifier_filter keep df :
  (forall x, In x df -> Data_Type x = "uniqueidentifier" -> keep x = true) ->
  df_uniqueidentifier (filter keep df) = df_uniqueidentifier df.
Proof.
  unfold df_uniqueidentifier.
  induction df as [|a df IH]; intros H; simpl; [reflexivity|].
  destruct (keep a) eqn:Ek; simpl.
  - rewrite IH by (intros x Hx; apply H; simpl; auto). reflexivity.
  - destruct (Data_Type a =? "uniqueidentifier") eqn:Et.
    + apply String.eqb_eq in Et. rewrite H in Ek by (simpl; auto).
      discriminate.
    + apply IH. intros x Hx. apply H. simpl; auto.
Qed.

(** X6: only the rows whose type is exactly [uniqueidentifier] count:
    dropping any other rows from the schema leaves the inferred frame as
    it is, rows and order. *)
Theorem connections_df_ignores_other_rows (keep : ColumnRecord -> bool)
  (df : list ColumnRecord) :
  (forall x, In x df -> Data_Type x = "uniqueidentifier" -> keep x = true) ->
  connections_df (filter keep df) = connections_df df.
Proof.
  intros H. unfold connections_df.
  now rewrite (df_uniqueidentifier_filter keep df H).
Qed.

Lemma connections_df_ignores_other_rows_witness :
  let df := (mkColumnRecord "Orders" "Total" "UniqueIdentifier"
             :: mkColumnRecord "Regions" "Total" "uniqueidentifier "
             :: audited_df) in
  let keep := fun r => negb (Column r =? "Total") && negb (Table r =? "Audit") in
  filter keep df = example_df
  /\ connections_df example_df = connections_df df.
Proof.
  intros df keep.
  assert (E : filter keep df = example_df) by reflexivity.
  split; [exact E|]. rewrite <- E.
  apply connections_df_ignores_other_rows.
  intros x Hx Hty. simpl in Hx.
  destruct Hx as [<-|[<-|[<-|[<-|[<-|[<-|[<-|[]]]]]]]];
    try reflexivity; discriminate Hty.
Defined.

(** ** Outcomes of a run *)

Lemma run_Ok_inv df filter_type p page :
  run df filter_type p = Ok page ->
  resolve df filter_type p = Ok (page_selection page, page_relationship page)
  /\ page_relationship_graph page
     = relationship_graph (page_relationship page) (connections_df df)
  /\ page_joinable_graph page
     = match selected_table (page_selection page) with
       | Some (Some table) =>
           Some (joinable_tables_graph table
                   (joinable_tables (page_selection page)))
       | _ => None
       end.
Proof.
  unfold run. destruct (resolve df filter_type p) as [[sel row]|exn];
    [|discriminate].
  unfold bind. intros H. injection H as <-. simpl. auto.
Qed.

Lemma run_of_resolve df filter_type p sel row :
  resolve df filter_type p = Ok (sel, row) ->
  exists page,
    run df filter_type p = Ok page /\
    page_selection page = sel /\ page_relationship page = row.
Proof.
  intros H. unfold run. rewrite H. unfold bind.
  eexists. split; [reflexivity|]. simpl. auto.
Qed.

Lemma narrow_by_table_eq df p :
  connections_df df <> [] ->
  narrow df TableName p
  = Ok (mkSelection
          (Some (selectbox (unique String.eqb (map Table df)) (pick_table p)))
          (to_tables
             (touching (selectbox (unique String.eqb (map Table df))
                                  (pick_table p))
                       (connections_df df)))
          (filter
             (fun r =>
                cell_eqb (to_table r)
                  (selectbox
                     (to_tables
                        (touching (selectbox (unique String.eqb (map Table df))
                                             (pick_table p))
                                  (connections_df df)))
                     (pick_to_table p)))
             (touching (selectbox (unique String.eqb (map Table df))
                                  (pick_table p))
                       (connections_df df)))).
Proof.
  intros H. unfold narrow, narrow_by_table.
  rewrite (getitem_columns_Ok _ H). reflexivity.
Qed.

(** The first table picked in the column mode. *)
Lemma narrow_by_column_eq df p first_table :
  connections_df df <> [] ->
  first_table
  = selectbox
      (tables_with_column (df_uniqueidentifier df)
         (selectbox (unique String.eqb (map Column (df_uniqueidentifier df)))
                    (pick_column p)))
      (pick_table_1 p) ->
  narrow df ColumnName p
  = Ok (mkSelection None
          (to_tables (touching first_table (connections_df df)))
          (filter
             (fun r =>
                cell_eqb (to_table r)
                  (selectbox
                     (to_tables (touching first_table (connections_df df)))
                     (pick_table_2 p))
                || cell_eqb (from_table r)
                     (selectbox
                        (to_tables (touching first_table (connections_df df)))
                        (pick_table_2 p)))
             (touching first_table (connections_df df)))).
Proof.
  intros H ->. unfold narrow, narrow_by_column.
  rewrite (getitem_columns_Ok _ H). reflexivity.
Qed.

Lemma narrow_Ok_columns df filter_type p sel :
  filter_type <> FilterNone ->
  narrow df filter_type p = Ok sel -> connections_df df <> [].
Proof.
  intros Hmode Hsel.
  destruct (narrow_filtering_inv df filter_type p sel Hmode Hsel)
    as (_ & _ & H & _). exact H.
Qed.

Lemma resolve_unfiltered df p :
  connections_df df <> [] ->
  resolve df FilterNone p
  = select_relationship (mkSelection None [] (connections_df df)) p.
Proof.
  intros H. unfold resolve, narrow, bind.
  destruct (connections_df df); [congruence | reflexivity].
Qed.

Lemma connections_df_distinct_tables df r :
  In r (connections_df df) -> from_table r <> to_table r.
Proof.
  rewrite in_connections_df, in_connections.
  intros (row & m & _ & _ & _ & Ht & ->). simpl. congruence.
Qed.


Lemma cell_eqb_true cell picked :
  cell_eqb cell picked = true -> picked = Some cell.
Proof.
  destruct picked as [s|]; [|discriminate].
  intros H. apply cell_eqb_Some in H. now subst.
Qed.

(** X8: when no relationship is inferred nothing is drawn: with a table
    or a column filter the run raises [KeyError], and without a filter it
    yields no page either. *)
Theorem run_without_connections (df : list ColumnRecord) (p : Picks) :
  connections_df df = [] ->
  run df TableName p = Raised "KeyError"
  /\ run df ColumnName p = Raised "KeyError"
  /\ (forall page, run df FilterNone p <> Ok page).
Proof.
  intros E. repeat split.
  - unfold run, resolve, narrow, narrow_by_table. rewrite E. reflexivity.
  - unfold run, resolve, narrow, narrow_by_column. rewrite E. reflexivity.
  - intros page. unfold run, resolve, narrow. rewrite E. discriminate.
Qed.

Lemma run_without_connections_witness :
  let df := [ mkColumnRecord "Orders" "OrderID" uid;
              mkColumnRecord "Orders" "CustomerID" "int";
              mkColumnRecord "Customers" "CustomerID" uid ] in
  connections_df df = []
  /\ run df TableName (mkPicks 1 0 0 0 0 0) = Raised "KeyError".
Proof.
  intros df.
  assert (E : connections_df df = []) by reflexivity.
  split; [exact E|].
  exact (proj1 (run_without_connections df (mkPicks 1 0 0 0 0 0) E)).
Defined.

(** X9: without a filter, as soon as one relationship is inferred every
    run yields a page: the candidates are the whole inferred frame, the
    relationship shown is one of them, and no joinable-tables chart is
    drawn. *)
Theorem run_unfiltered_succeeds (df : list ColumnRecord) (p : Picks) :
  connections_df df <> [] ->
  exists page,
    run df FilterNone p = Ok page
    /\ filtered_connections (page_selection page) = connections_df df
    /\ In (page_relationship page) (connections_df df)
    /\ page_joinable_graph page = None.
Proof.
  intros Hne.
  destruct (select_relationship_Ok
              (mkSelection None [] (connections_df df)) p Hne) as [row Hrow].
  assert (Hres : resolve df FilterNone p
                 = Ok (mkSelection None [] (connections_df df), row))
    by now rewrite resolve_unfiltered.
  destruct (run_of_resolve _ _ _ _ _ Hres) as (page & Hrun & Hsel & Hrel).
  exists page. split; [assumption|].
  apply run_Ok_inv in Hrun as (_ & _ & Hgraph).
  rewrite Hsel in *. rewrite Hrel. simpl in *.
  repeat split; try assumption.
  now apply select_relationship_Ok_inv in Hrow as (_ & Hin & _).
Qed.

Lemma run_unfiltered_succeeds_witness :
  connections_df example_df <> []
  /\ exists page,
       run example_df FilterNone (mkPicks 0 0 0 0 0 2) = Ok page
       /\ In (page_relationship page) (connections_df example_df).
Proof.
  assert (H : connections_df example_df <> []) by discriminate.
  split; [exact H|].
  destruct (run_unfiltered_succeeds example_df (mkPicks 0 0 0 0 0 2) H)
    as (page & Hrun & _ & Hin & _).
  exists page. split; assumption.
Defined.



(** ** What a run resolves *)

Lemma tables_with_column_None dfu : tables_with_column dfu None = [].
Proof.
  unfold tables_with_column.
  assert (E : filter (fun r => cell_eqb (Column r) None) dfu = [])
    by (induction dfu; simpl; auto).
  now rewrite E.
Qed.

(** X11: with a table filter the relationship shown always ends at the
    table picked as second table; it leaves the selected table for that
    table, unless the second table is the selected table itself, and then
    it is a relationship entering the selected table.  The chart drawn is
    the joinable-tables graph of the selected table. *)
Theorem run_by_table_resolved (df : list ColumnRecord) (p : Picks)
  (t : string) (page : Page) :
  selectbox (unique String.eqb (map Table df)) (pick_table p) = Some t ->
  run df TableName p = Ok page ->
  let r := page_relationship page in
  let joinable := to_tables (touching (Some t) (connections_df df)) in
  In r (connections_df df)
  /\ selectbox joinable (pick_to_table p) = Some (to_table r)
  /\ ((from_table r = t /\ to_table r <> t) \/
      (to_table r = t /\ from_table r <> t))
  /\ page_joinable_graph page = Some (joinable_tables_graph t joinable).
Proof.
  intros Hpick Hrun r joinable.
  apply run_Ok_inv in Hrun as (Hres & _ & Hgraph).
  apply resolve_Ok_inv in Hres as (Hnarrow & Hin & _).
  assert (Hne : connections_df df <> []).
  { apply (narrow_Ok_columns df TableName p (page_selection page));
      [discriminate | assumption]. }
  rewrite (narrow_by_table_eq df p Hne), Hpick in Hnarrow.
  injection Hnarrow as Hsel. rewrite <- Hsel in Hin, Hgraph.
  simpl in Hin, Hgraph. fold r in Hin. fold joinable in Hin, Hgraph.
  apply filter_In in Hin as [Hin Hto]. apply cell_eqb_true in Hto.
  apply in_touching in Hin as [Hin Hside].
  pose proof (connections_df_distinct_tables df r Hin) as Hdiff.
  repeat split; try assumption.
  destruct Hside as [Hf|Ht]; [left | right]; split; congruence.
Qed.

Lemma run_by_table_resolved_witness :
  let p := mkPicks 1 1 0 0 0 0 in
  exists page,
    run example_df TableName p = Ok page
    /\ page_relationship page
       = mkRelationship "Customers" "CustomerID" "Orders" "CustomerID"
    /\ In (page_relationship page) (connections_df example_df).
Proof.
  intros p.
  assert (Hpick : selectbox (unique String.eqb (map Table example_df))
                            (pick_table p) = Some "Customers") by reflexivity.
  eexists. split; [reflexivity|]. split; [reflexivity|].
  refine (proj1 (run_by_table_resolved example_df p "Customers" _ Hpick _)).
  reflexivity.
Defined.

(** X12: with a column filter the first table offered holds the selected
    column as an identifier, the relationship shown touches both the first
    and the second table picked, and no joinable-tables chart is drawn. *)
Theorem run_by_column_resolved (df : list ColumnRecord) (p : Picks)
  (page : Page) :
  run df ColumnName p = Ok page ->
  let r := page_relationship page in
  exists c a b,
    selectbox (unique String.eqb (map Column (df_uniqueidentifier df)))
              (pick_column p) = Some c
    /\ selectbox (tables_with_column (df_uniqueidentifier df) (Some c))
                 (pick_table_1 p) = Some a
    /\ selectbox (to_tables (touching (Some a) (connections_df df)))
                 (pick_table_2 p) = Some b
    /\ In (mkColumnRecord a c "uniqueidentifier") df
    /\ In r (connections_df df)
    /\ (from_table r = a \/ to_table r = a)
    /\ (from_table r = b \/ to_table r = b)
    /\ page_joinable_graph page = None.
Proof.
  intros Hrun r.
  apply run_Ok_inv in Hrun as (Hres & _ & Hgraph).
  apply resolve_Ok_inv in Hres as (Hnarrow & Hin & _).
  assert (Hne : connections_df df <> []).
  { apply (narrow_Ok_columns df ColumnName p (page_selection page));
      [discriminate | assumption]. }
  rewrite (narrow_by_column_eq df p _ Hne eq_refl) in Hnarrow.
  injection Hnarrow as Hsel. rewrite <- Hsel in Hin, Hgraph.
  simpl in Hin, Hgraph. fold r in Hin.
  destruct (selectbox (unique String.eqb (map Column (df_uniqueidentifier df)))
                      (pick_column p)) as [c|] eqn:Ec.
  2:{ rewrite tables_with_column_None in Hin. simpl in Hin.
      apply filter_In in Hin as [Hin _]. rewrite touching_None in Hin.
      destruct Hin. }
  destruct (selectbox (tables_with_column (df_uniqueidentifier df) (Some c))
                      (pick_table_1 p)) as [a|] eqn:Ea.
  2:{ apply filter_In in Hin as [Hin _]. rewrite touching_None in Hin.
      destruct Hin. }
  apply filter_In in Hin as [Hin Hsecond].
  apply in_touching in Hin as [Hin Hfirst].
  destruct (selectbox (to_tables (touching (Some a) (connections_df df)))
                      (pick_table_2 p)) as [b|] eqn:Eb; [|discriminate].
  apply orb_true_iff in Hsecond. rewrite !cell_eqb_Some in Hsecond.
  pose proof Ea as Hoffered.
  apply selectbox_In, in_tables_with_column in Hoffered
    as (row & Hrow & Hcol & Htab).
  apply in_df_uniqueidentifier in Hrow as [Hrow Hty].
  exists c, a, b. repeat split; try assumption; try tauto.
  destruct row as [t' c' ty']. simpl in *. now subst.
Qed.

Lemma run_by_column_resolved_witness :
  let p := mkPicks 0 0 1 1 0 0 in
  exists page,
    run example_df ColumnName p = Ok page
    /\ exists c a b,
         selectbox (unique String.eqb
                      (map Column (df_uniqueidentifier example_df)))
                   (pick_column p) = Some c
         /\ selectbox (tables_with_column (df_uniqueidentifier example_df)
                         (Some c)) (pick_table_1 p) = Some a
         /\ selectbox (to_tables (touching (Some a)
                                    (connections_df example_df)))
                      (pick_table_2 p) = Some b
         /\ (from_table (page_relationship page) = a
             \/ to_table (page_relationship page) = a).
Proof.
  intros p. eexists. split; [reflexivity|].
  destruct (run_by_column_resolved example_df p _ eq_refl)
    as (c & a & b & Hc & Ha & Hb & _ & _ & Hfirst & _).
  exists c, a, b. auto.
Defined.


(** X15: when the keys of the candidates are pairwise different, the
    relationship resolved is the candidate at the position picked in the
    last widget. *)
Theorem select_relationship_picked (sel : Selection) (p : Picks)
  (d : Relationship) :
  NoDup (map display_key (filtered_connections sel)) ->
  pick_relationship p < List.length (filtered_connections sel) ->
  select_relationship sel p
  = Ok (sel, nth (pick_relationship p) (filtered_connections sel) d).
Proof.
  intros Hnd Hlt. unfold select_relationship.
  set (l := filtered_connections sel) in *.
  set (n := pick_relationship p) in *.
  assert (Hkey : selectbox (map display_key l) n
                 = Some (display_key (nth n l d))).
  { destruct l as [|x l']; [simpl in Hlt; lia|].
    unfold selectbox. cbn [map]. f_equal.
    rewrite <- (map_nth display_key).
    apply nth_indep. now rewrite List.length_map. }
  rewrite Hkey.
  destruct (nth_split l d Hlt) as (l1 & l2 & Hl & Hlen).
  assert (Hrow : selected_row l (Some (display_key (nth n l d)))
                 = Ok (nth n l d)).
  { apply selected_row_Ok_iff. exists l1, l2.
    split; [assumption|]. split; [reflexivity|].
    apply Forall_forall. intros x Hx Hk.
    rewrite Hl, map_app in Hnd. cbn [map] in Hnd.
    apply NoDup_remove_2 in Hnd. apply Hnd.
    apply in_or_app. left. rewrite <- Hk. now apply in_map. }
  rewrite Hrow. reflexivity.
Qed.

Lemma select_relationship_picked_witness :
  let sel := mkSelection None [] (connections_df example_df) in
  let p := mkPicks 0 0 0 0 0 3 in
  select_relationship sel p
  = Ok (sel, mkRelationship "Regions" "RegionID" "Customers" "RegionID").
Proof.
  intros sel p.
  assert (Hnd : NoDup (map display_key (filtered_connections sel))).
  { apply (NoDup_count_occ' string_dec). intros x Hx.
    simpl in Hx. destruct Hx as [<-|[<-|[<-|[<-|[]]]]]; reflexivity. }
  assert (Hlt : pick_relationship p < List.length (filtered_connections sel))
    by (simpl; lia).
  exact (select_relationship_picked sel p
           (mkRelationship "" "" "" "") Hnd Hlt).
Defined.

(** ** Shape of the graphs *)

Lemma nodes_flat_map_pair {X : Type} (n e : X -> Statement) l :
  (forall x, is_node (n x) = true) -> (forall x, is_node (e x) = false) ->
  filter is_node (flat_map (fun x => [n x; e x]) l) = map n l.
Proof.
  intros Hn He. induction l as [|x l IH]; simpl; [reflexivity|].
  rewrite Hn, He. now rewrite IH.
Qed.

Lemma relationship_graph_body row cdf :
  body (relationship_graph row cdf)
  = ([ Node (from_table row) (from_table row) "box";
       Node (to_table row) (to_table row) "box";
       Edge (from_table row) (to_table row)
            (from_column row ++ " → " ++ to_column row) ]
     ++ flat_map
          (fun d => [ Node (to_table d) (to_table d) "box";
                      Edge (to_table row) (to_table d)
                           (to_column row ++ " → " ++ to_column d) ])
          (filter (fun r => from_table r =? to_table row) cdf))%list.
Proof.
  unfold relationship_graph. rewrite downstream_fold_body. reflexivity.
Qed.



(** X17: the relationship graph has one edge for the selected row and one
    per connection leaving its [to_table], and both ends of every edge are
    declared as box nodes. *)
Theorem relationship_graph_well_formed (row : Relationship)
  (cdf : list Relationship) :
  List.length (edges (relationship_graph row cdf))
  = S (List.length (filter (fun r => from_table r =? to_table row) cdf))
  /\ (forall a b label,
        In (Edge a b label) (body (relationship_graph row cdf)) ->
        In (Node a a "box") (body (relationship_graph row cdf))
        /\ In (Node b b "box") (body (relationship_graph row cdf))).
Proof.
  split.
  - rewrite relationship_graph_edges. simpl. now rewrite List.length_map.
  - intros a b label. rewrite relationship_graph_body.
    intros Hin. apply in_app_or in Hin as [Hin|Hin].
    + simpl in Hin. destruct Hin as [H|[H|[H|[]]]]; try discriminate.
      injection H as <- <- _. split; simpl; auto.
    + apply in_flat_map in Hin as (d & Hd & Hin).
      simpl in Hin. destruct Hin as [H|[H|[]]]; [discriminate|].
      injection H as <- <- _. split; [simpl; auto|].
      apply in_or_app. right. apply in_flat_map. exists d.
      split; [assumption | simpl; auto].
Qed.

(** X18: the joinable-tables graph declares the anchor and then every
    joinable table as a box node, and its edges are exactly the edges
    labelled "joins" from the anchor to a joinable table, one per entry of
    the list. *)
Theorem joinable_tables_graph_shape (anchor : string) (joinable : list string) :
  nodes (joinable_tables_graph anchor joinable)
  = Node anchor anchor "box" :: map (fun t => Node t t "box") joinable
  /\ List.length (edges (joinable_tables_graph anchor joinable))
     = List.length joinable
  /\ (forall a b label,
        In (Edge a b label) (edges (joinable_tables_graph anchor joinable)) <->
        a = anchor /\ In b joinable /\ label = "joins").
Proof.
  split; [|split].
  - unfold nodes. rewrite joinable_tables_graph_body. simpl. f_equal.
    apply (nodes_flat_map_pair (fun t => Node t t "box")
                               (fun t => Edge anchor t "joins"));
      reflexivity.
  - rewrite joinable_tables_graph_edges. apply List.length_map.
  - intros a b label. rewrite joinable_tables_graph_edges, in_map_iff. split.
    + intros (t & H & Hin). injection H as <- <- <-. auto.
    + intros (-> & Hin & ->). exists b. auto.
Qed.

(** ** Joinable tables and side tables *)






(** * The loaded frame *)

(** ** Comparing cells *)

Lemma same_cell_eq a b : same_cell a b = true <-> a = b.
Proof.
  destruct a as [s| |v|f], b as [s'| |v'|f']; simpl;
    try (split; [discriminate | congruence]).
  - rewrite String.eqb_eq. split; congruence.
  - tauto.
  - split.
    + intros H. apply Qcanon.Qc_eq_bool_correct in H. congruence.
    + intros H. injection H as ->. unfold Qcanon.Qc_eq_bool.
      destruct (Qcanon.Qc_eq_dec v' v'); congruence.
  - rewrite Bool.eqb_true_iff. split; congruence.
Qed.

Lemma cell_eq_true a b : cell_eq a b = true <-> a = b /\ a <> NaN.
Proof.
  destruct a as [s| |v|f], b as [s'| |v'|f']; unfold cell_eq;
    try rewrite same_cell_eq;
    (split;
     [ intros H; first [discriminate H | split; [exact H | discriminate]]
     | intros [H H'];
       first [discriminate H | exfalso; apply H'; reflexivity | exact H] ]).
Qed.

Lemma cell_ne_true a b : cell_ne a b = true <-> a <> b \/ a = NaN.
Proof.
  unfold cell_ne. rewrite negb_true_iff.
  destruct (cell_eq a b) eqn:E.
  - apply cell_eq_true in E as [-> Hn]. split; [discriminate | tauto].
  - split; [|reflexivity]. intros _.
    destruct (same_cell a NaN) eqn:En.
    + apply same_cell_eq in En. auto.
    + left. intros ->.
      assert (Hn : b <> NaN).
      { intros ->. discriminate En. }
      assert (Ht : cell_eq b b = true) by (apply cell_eq_true; auto).
      congruence.
Qed.

Lemma cell_ne_false a b : cell_ne a b = false <-> a = b /\ a <> NaN.
Proof.
  unfold cell_ne. rewrite negb_false_iff. apply cell_eq_true.
Qed.

Lemma Loaded_Relationship_eqb_eq a b :
  Loaded.Relationship_eqb a b = true <-> a = b.
Proof.
  unfold Loaded.Relationship_eqb. rewrite !andb_true_iff, !same_cell_eq.
  destruct a, b; simpl. split.
  - intros [[[-> ->] ->] ->]. reflexivity.
  - intros H. injection H as -> -> -> ->. auto.
Qed.

(** ** The loaded inference *)

Lemma in_loaded_df_uniqueidentifier df row :
  In row (Loaded.df_uniqueidentifier df) <->
  In row df /\ Loaded.Data_Type row = Text "uniqueidentifier".
Proof.
  unfold Loaded.df_uniqueidentifier. rewrite filter_In, cell_eq_true.
  split; [tauto|]. intros [H E]. repeat split; try assumption.
  rewrite E. discriminate.
Qed.

Lemma in_loaded_connections dfu r :
  In r (Loaded.connections dfu) <->
  exists row m,
    In row dfu /\ In m dfu /\
    cell_eq (Loaded.Column m) (Loaded.Column row) = true /\
    cell_ne (Loaded.Table m) (Loaded.Table row) = true /\
    r = Loaded.mkRelationship (Loaded.Table row) (Loaded.Column row)
                              (Loaded.Table m) (Loaded.Column m).
Proof.
  unfold Loaded.connections, Loaded.matches. rewrite in_flat_map. split.
  - intros [row [Hrow Hr]]. apply in_map_iff in Hr as [m [<- Hm]].
    apply filter_In in Hm as [Hm Hb]. apply andb_true_iff in Hb as [Hc Ht].
    exists row, m. auto.
  - intros (row & m & Hrow & Hm & Hc & Ht & ->). exists row.
    split; [assumption|]. apply in_map_iff. exists m. split; [reflexivity|].
    apply filter_In. split; [assumption|]. now rewrite Hc, Ht.
Qed.

Lemma in_loaded_connections_df df r :
  In r (Loaded.connections_df df) <->
  In r (Loaded.connections (Loaded.df_uniqueidentifier df)).
Proof.
  unfold Loaded.connections_df, Loaded.drop_duplicates.
  apply in_unique, Loaded_Relationship_eqb_eq.
Qed.

Lemma NoDup_loaded_connections_df df : NoDup (Loaded.connections_df df).
Proof. apply NoDup_unique, Loaded_Relationship_eqb_eq. Qed.

Lemma in_loaded_tables_with_column dfu c t :
  In t (Loaded.tables_with_column dfu (Some c)) <->
  exists row,
    In row dfu /\ Loaded.Column row = c /\ c <> NaN /\ Loaded.Table row = t.
Proof.
  unfold Loaded.tables_with_column.
  rewrite (in_unique same_cell same_cell_eq), in_map_iff.
  split; intros [row H]; exists row; rewrite filter_In in *;
    unfold Loaded.picked_eq in *; rewrite cell_eq_true in *.
  - destruct H as (Ht & Hin & Hc & Hn). repeat split; congruence.
  - destruct H as (Hin & Hc & Hn & Ht). repeat split; congruence.
Qed.

Lemma loaded_tables_with_missing_column dfu :
  Loaded.tables_with_column dfu (Some NaN) = [].
Proof.
  unfold Loaded.tables_with_column.
  assert (E : filter (fun r => Loaded.picked_eq (Loaded.Column r) (Some NaN)) dfu
              = []).
  { induction dfu as [|a l IH]; simpl; [reflexivity|].
    destruct (Loaded.Column a); simpl; exact IH. }
  now rewrite E.
Qed.

(** ** Counting ordered pairs *)

Lemma length_flat_map_const {A B : Type} (f : A -> list B) (k : nat) l :
  (forall a, In a l -> List.length (f a) = k) ->
  List.length (flat_map f l) = List.length l * k.
Proof.
  induction l as [|a l IH]; intros H; simpl; [reflexivity|].
  rewrite List.length_app, (H a) by (simpl; auto).
  rewrite IH; [reflexivity|].
  intros b Hb. apply H. simpl; auto.
Qed.

Lemma NoDup_flat_map {A B : Type} (f : A -> list B) l :
  NoDup l ->
  (forall a, In a l -> NoDup (f a)) ->
  (forall a b x, In a l -> In b l -> In x (f a) -> In x (f b) -> a = b) ->
  NoDup (flat_map f l).
Proof.
  induction 1 as [|a l Ha Hnd IH]; intros Hf Hdisj; simpl; [constructor|].
  apply NoDup_app.
  - apply Hf. simpl; auto.
  - apply IH.
    + intros b Hb. apply Hf. simpl; auto.
    + intros b b' x Hb Hb'. apply Hdisj; simpl; auto.
  - intros x Hx Hx'. apply in_flat_map in Hx' as [b [Hb Hxb]].
    assert (a = b) by (apply (Hdisj a b x); simpl; auto).
    subst. contradiction.
Qed.

Section OrderedPairs.
Context {A B : Type}.
Variable same : A -> A -> bool.
Variable pair : A -> A -> B.
Hypothesis same_eq : forall x y, same x y = true <-> x = y.
Hypothesis pair_inj :
  forall a b a' b', pair a b = pair a' b' -> a = a' /\ b = b'.

Lemma filter_others_absent (a : A) l :
  ~ In a l -> filter (fun b => negb (same b a)) l = l.
Proof.
  induction l as [|x l IH]; intros H; simpl; [reflexivity|].
  destruct (same x a) eqn:E.
  - apply same_eq in E. subst. exfalso. apply H. simpl; auto.
  - simpl. rewrite IH; [reflexivity|]. intros Hin. apply H. simpl; auto.
Qed.

Lemma length_filter_others (a : A) l :
  NoDup l -> In a l ->
  List.length (filter (fun b => negb (same b a)) l) = List.length l - 1.
Proof.
  induction 1 as [|x l Hx Hnd IH]; intros Hin; [destruct Hin|].
  simpl. destruct (same x a) eqn:E; simpl.
  - apply same_eq in E. subst.
    rewrite filter_others_absent by assumption. lia.
  - assert (Hne : x <> a).
    { intros Hxa. apply same_eq in Hxa. congruence. }
    destruct Hin as [Hin|Hin]; [congruence|].
    rewrite IH by assumption. destruct l; [destruct Hin | simpl; lia].
Qed.

Lemma in_ordered_pairs tabs r :
  In r (ordered_pairs same pair tabs) <->
  exists a b, In a tabs /\ In b tabs /\ a <> b /\ r = pair a b.
Proof.
  unfold ordered_pairs. rewrite in_flat_map. split.
  - intros [a [Ha Hr]]. apply in_map_iff in Hr as [b [<- Hb]].
    apply filter_In in Hb as [Hb Hne]. apply negb_true_iff in Hne.
    exists a, b. repeat split; try assumption.
    intros ->. assert (same b b = true) by now apply same_eq. congruence.
  - intros (a & b & Ha & Hb & Hne & ->). exists a. split; [assumption|].
    apply in_map_iff. exists b. split; [reflexivity|].
    apply filter_In. split; [assumption|]. apply negb_true_iff.
    destruct (same b a) eqn:E; [|reflexivity].
    apply same_eq in E. congruence.
Qed.

Lemma NoDup_ordered_pairs tabs :
  NoDup tabs -> NoDup (ordered_pairs same pair tabs).
Proof.
  intros Hnd. unfold ordered_pairs. apply NoDup_flat_map; [assumption| |].
  - intros a _. apply Finite.Injective_map_NoDup.
    + intros b b' H. now apply pair_inj in H.
    + now apply NoDup_filter.
  - intros a b x _ _ Hx Hx'.
    apply in_map_iff in Hx as [y [<- _]].
    apply in_map_iff in Hx' as [y' [H _]]. apply pair_inj in H as [H _].
    congruence.
Qed.

Lemma length_ordered_pairs tabs :
  NoDup tabs ->
  List.length (ordered_pairs same pair tabs)
  = List.length tabs * (List.length tabs - 1).
Proof.
  intros Hnd. unfold ordered_pairs. apply length_flat_map_const.
  intros a Ha. rewrite List.length_map. now apply length_filter_others.
Qed.
End OrderedPairs.

(** On a column [c] that is not missing, held by no table that is
    missing, the connections are the ordered pairs of distinct tables
    holding [c]. *)
Lemma in_loaded_connections_df_on_column df c r :
  c <> NaN ->
  ~ In NaN (Loaded.tables_with_column (Loaded.df_uniqueidentifier df) (Some c)) ->
  (In r (Loaded.connections_df df) /\ Loaded.from_column r = c <->
   In r (ordered_pairs same_cell
           (fun a b => Loaded.mkRelationship a c b c)
           (Loaded.tables_with_column (Loaded.df_uniqueidentifier df) (Some c)))).
Proof.
  intros Hc Hmiss.
  rewrite in_loaded_connections_df, in_loaded_connections.
  rewrite (in_ordered_pairs same_cell _ same_cell_eq). split.
  - intros [(row & m & Hrow & Hm & Heq & Hne & ->) Hfc]. simpl in Hfc.
    apply cell_eq_true in Heq as [Heq _].
    assert (Hrt : In (Loaded.Table row)
                     (Loaded.tables_with_column (Loaded.df_uniqueidentifier df)
                                                (Some c)))
      by (apply in_loaded_tables_with_column; exists row; auto).
    assert (Hmt : In (Loaded.Table m)
                     (Loaded.tables_with_column (Loaded.df_uniqueidentifier df)
                                                (Some c)))
      by (apply in_loaded_tables_with_column; exists m;
          repeat split; congruence).
    exists (Loaded.Table row), (Loaded.Table m). repeat split; try assumption.
    + apply cell_ne_true in Hne as [Hne|Hnan]; [congruence|].
      rewrite Hnan in Hmt. contradiction.
    + rewrite Heq, Hfc. reflexivity.
  - intros (a & b & Ha & Hb & Hne & ->).
    pose proof Hb as Hb'.
    apply in_loaded_tables_with_column in Ha as (row & Hrow & Hcr & _ & <-).
    apply in_loaded_tables_with_column in Hb as (m & Hm & Hcm & _ & <-).
    split; [|reflexivity].
    exists row, m. repeat split; try assumption.
    + apply cell_eq_true. split; congruence.
    + apply cell_ne_true. left. congruence.
    + now rewrite Hcr, Hcm.
Qed.

(** ** Claims on the loaded frame *)

(** C1, as stated, fails: a column name that reads [NA], or is left
    blank, is loaded as the missing value; it is the column of identifier
    rows of the two tables [Orders] and [Customers], and no relationship
    at all is inferred, where the claim counts two. *)
Lemma missing_column_name_gives_no_pair :
  let frame :=
    [ Loaded.mkColumnRecord (Text "Orders") NaN (Text "uniqueidentifier");
      Loaded.mkColumnRecord (Text "Customers") NaN (Text "uniqueidentifier") ] in
  Loaded.connections_df frame = []
  /\ ~ (forall c,
          let tabs :=
            unique same_cell
              (map Loaded.Table
                 (filter (fun r => same_cell (Loaded.Column r) c)
                         (Loaded.df_uniqueidentifier frame))) in
          2 <= List.length tabs ->
          List.length (filter (fun r => same_cell (Loaded.from_column r) c)
                              (Loaded.connections_df frame))
          = List.length tabs * (List.length tabs - 1)).
Proof.
  intros frame. split; [reflexivity|].
  intros H. specialize (H NaN (le_n 2)). discriminate H.
Qed.

(** C1, amended: when column [c], not loaded as a missing value, is an
    identifier column of exactly [n >= 2] distinct tables, none of them
    loaded as a missing value, the inferred set has exactly [n * (n - 1)]
    entries on [c]; every ordered pair of distinct tables among the [n]
    occurs in the set exactly once, and every entry on [c] is such a
    pair. *)
Theorem loaded_connections_df_complete_pairs (df : list Loaded.ColumnRecord)
  (c : Cell) :
  let tabs := Loaded.tables_with_column (Loaded.df_uniqueidentifier df) (Some c) in
  let n := List.length tabs in
  c <> NaN ->
  ~ In NaN tabs ->
  2 <= n ->
  List.length (filter (fun r => same_cell (Loaded.from_column r) c)
                      (Loaded.connections_df df)) = n * (n - 1)
  /\ (forall Ti Tj, In Ti tabs -> In Tj tabs -> Ti <> Tj ->
        count_occ Loaded_Relationship_eq_dec (Loaded.connections_df df)
                  (Loaded.mkRelationship Ti c Tj c) = 1)
  /\ (forall r, In r (Loaded.connections_df df) ->
        Loaded.from_column r = c \/ Loaded.to_column r = c ->
        exists Ti Tj, In Ti tabs /\ In Tj tabs /\ Ti <> Tj /\
                      r = Loaded.mkRelationship Ti c Tj c).
Proof.
  intros tabs n Hc Hmiss _.
  assert (Hnd : NoDup tabs) by apply (NoDup_unique same_cell same_cell_eq).
  assert (Hinj : forall a b a' b',
             Loaded.mkRelationship a c b c = Loaded.mkRelationship a' c b' c ->
             a = a' /\ b = b').
  { intros a b a' b' H. injection H as -> ->. auto. }
  split; [|split].
  - unfold n.
    rewrite <- (length_ordered_pairs same_cell
                  (fun a b => Loaded.mkRelationship a c b c)
                  same_cell_eq tabs Hnd).
    apply Permutation_length, NoDup_Permutation.
    + apply NoDup_filter, NoDup_loaded_connections_df.
    + now apply (NoDup_ordered_pairs same_cell _ Hinj).
    + intros r. rewrite filter_In, same_cell_eq.
      now apply in_loaded_connections_df_on_column.
  - intros Ti Tj Hi Hj Hne.
    apply (proj1 (NoDup_count_occ' Loaded_Relationship_eq_dec _)
                 (NoDup_loaded_connections_df df)).
    apply (in_loaded_connections_df_on_column df c _ Hc Hmiss).
    apply (in_ordered_pairs same_cell _ same_cell_eq).
    exists Ti, Tj. auto.
  - intros r Hr Hside.
    assert (Hfc : Loaded.from_column r = c).
    { destruct Hside as [Hf|Ht]; [assumption|].
      apply in_loaded_connections_df, in_loaded_connections in Hr
        as (row & m & _ & _ & Heq & _ & ->).
      simpl in *. apply cell_eq_true in Heq as [Heq _]. congruence. }
    apply (in_ordered_pairs same_cell _ same_cell_eq).
    apply (in_loaded_connections_df_on_column df c r Hc Hmiss). auto.
Qed.

Lemma loaded_connections_df_complete_pairs_witness :
  let row := fun t c ty => Loaded.mkColumnRecord t c (Text ty) in
  let df := [ row (Text "A") (Text "k") "uniqueidentifier";
              row (Text "B") (Text "k") "uniqueidentifier";
              row (Text "C") (Text "k") "uniqueidentifier";
              row (Text "A") (Text "k") "uniqueidentifier";
              row NaN (Text "other") "uniqueidentifier";
              row (Text "D") NaN "uniqueidentifier";
              row (Text "E") (Text "k") "int" ] in
  let tabs := Loaded.tables_with_column (Loaded.df_uniqueidentifier df)
                                        (Some (Text "k")) in
  (Text "k" <> NaN /\ ~ In NaN tabs /\ List.length tabs = 3)
  /\ List.length (filter (fun r => same_cell (Loaded.from_column r) (Text "k"))
                         (Loaded.connections_df df)) = 3 * (3 - 1).
Proof.
  intros row df tabs.
  assert (Hc : Text "k" <> NaN) by discriminate.
  assert (Hmiss : ~ In NaN tabs).
  { vm_compute. intros [H|[H|[H|[]]]]; discriminate H. }
  assert (Hn : 2 <= List.length tabs) by (vm_compute; lia).
  split; [repeat split; assumption|].
  exact (proj1 (loaded_connections_df_complete_pairs df (Text "k")
                  Hc Hmiss Hn)).
Defined.

(** ** Text frames *)

Lemma filter_map_swap {A B : Type} (f : B -> bool) (g : A -> B) l :
  filter f (map g l) = map g (filter (fun x => f (g x)) l).
Proof.
  induction l as [|a l IH]; simpl; [reflexivity|].
  destruct (f (g a)); simpl; now rewrite IH.
Qed.

Lemma unique_from_map {A B : Type} (eqbA : A -> A -> bool)
  (eqbB : B -> B -> bool) (g : A -> B) :
  (forall x y, eqbB (g x) (g y) = eqbA x y) ->
  forall l seen,
    unique_from eqbB (map g seen) (map g l) = map g (unique_from eqbA seen l).
Proof.
  intros Hg. induction l as [|a l IH]; intros seen; simpl; [reflexivity|].
  assert (E : seen_in eqbB (g a) (map g seen) = seen_in eqbA a seen).
  { unfold seen_in. induction seen as [|s seen IHs]; simpl; [reflexivity|].
    now rewrite Hg, IHs. }
  rewrite E. destruct (seen_in eqbA a seen).
  - apply IH.
  - simpl. f_equal. apply (IH (a :: seen)).
Qed.

Lemma unique_map {A B : Type} (eqbA : A -> A -> bool)
  (eqbB : B -> B -> bool) (g : A -> B) l :
  (forall x y, eqbB (g x) (g y) = eqbA x y) ->
  unique eqbB (map g l) = map g (unique eqbA l).
Proof. intros Hg. apply (unique_from_map eqbA eqbB g Hg l []). Qed.

Lemma all_text_rows frame :
  Loaded.all_text frame = true -> frame = map loaded_row (map text_row frame).
Proof.
  induction frame as [|r frame IH]; simpl; [reflexivity|].
  rewrite !andb_true_iff. intros [[[Ht Hc] Hd] Hrest].
  rewrite <- IH by assumption. f_equal.
  destruct r as [[t| | |] [c| | |] [d| | |]]; try discriminate.
  reflexivity.
Qed.

Lemma loaded_df_uniqueidentifier_text df :
  Loaded.df_uniqueidentifier (map loaded_row df)
  = map loaded_row (df_uniqueidentifier df).
Proof.
  unfold Loaded.df_uniqueidentifier, df_uniqueidentifier.
  now rewrite filter_map_swap.
Qed.

Lemma loaded_matches_text dfu row :
  Loaded.matches (map loaded_row dfu) (loaded_row row)
  = map loaded_row (matches dfu row).
Proof.
  unfold Loaded.matches, matches. now rewrite filter_map_swap.
Qed.

Lemma loaded_connections_text_rows dfu l :
  flat_map
    (fun row =>
       map (fun m => Loaded.mkRelationship (Loaded.Table row) (Loaded.Column row)
                                           (Loaded.Table m) (Loaded.Column m))
           (Loaded.matches (map loaded_row dfu) row))
    (map loaded_row l)
  = map loaded_relationship
      (flat_map
         (fun row =>
            map (fun m => mkRelationship (Table row) (Column row)
                                         (Table m) (Column m))
                (matches dfu row))
         l).
Proof.
  induction l as [|a l IH]; simpl; [reflexivity|].
  rewrite IH, map_app, loaded_matches_text, !map_map. reflexivity.
Qed.

Lemma loaded_connections_text dfu :
  Loaded.connections (map loaded_row dfu)
  = map loaded_relationship (connections dfu).
Proof. apply loaded_connections_text_rows. Qed.

(** X21: on a loaded frame whose cells are all text, the inference of the
    script is the one computed on the rows of text: the same relationships
    in the same order, the same options in the column widget and the same
    first tables for every column. *)
Theorem text_frame_inference (frame : list Loaded.ColumnRecord) :
  Loaded.all_text frame = true ->
  let df := map text_row frame in
  frame = map loaded_row df
  /\ Loaded.connections_df frame = map loaded_relationship (connections_df df)
  /\ Loaded.column_options (Loaded.df_uniqueidentifier frame)
     = map Text (unique String.eqb (map Column (df_uniqueidentifier df)))
  /\ (forall c,
        Loaded.tables_with_column (Loaded.df_uniqueidentifier frame)
                                  (Some (Text c))
        = map Text (tables_with_column (df_uniqueidentifier df) (Some c))).
Proof.
  intros Htext df.
  pose proof (all_text_rows frame Htext) as E. fold df in E.
  split; [exact E|]. rewrite E. clear E Htext.
  rewrite loaded_df_uniqueidentifier_text.
  split; [|split].
  - unfold Loaded.connections_df, Loaded.drop_duplicates.
    rewrite loaded_df_uniqueidentifier_text, loaded_connections_text.
    apply (unique_map Relationship_eqb Loaded.Relationship_eqb).
    reflexivity.
  - unfold Loaded.column_options. rewrite map_map.
    rewrite <- (map_map Column Text).
    apply (unique_map String.eqb same_cell). reflexivity.
  - intros c. unfold Loaded.tables_with_column, tables_with_column.
    rewrite filter_map_swap, map_map.
    rewrite <- (map_map Table Text).
    apply (unique_map String.eqb same_cell). reflexivity.
Qed.

Lemma text_frame_inference_witness :
  let frame := map loaded_row audited_df in
  Loaded.all_text frame = true
  /\ Loaded.connections_df frame
     = map loaded_relationship (connections_df (map text_row frame)).
Proof.
  intros frame.
  assert (H : Loaded.all_text frame = true) by reflexivity.
  split; [exact H|].
  exact (proj1 (proj2 (text_frame_inference frame H))).
Defined.

(** X7: no relationship is inferred exactly when any two identifier rows
    with the same column name, not missing, have the same table, not
    missing either. *)
Theorem loaded_connections_df_nil_iff (df : list Loaded.ColumnRecord) :
  Loaded.connections_df df = [] <->
  (forall a b,
     In a (Loaded.df_uniqueidentifier df) ->
     In b (Loaded.df_uniqueidentifier df) ->
     Loaded.Column a = Loaded.Column b -> Loaded.Column a <> NaN ->
     Loaded.Table a = Loaded.Table b /\ Loaded.Table a <> NaN).
Proof.
  split.
  - intros E a b Ha Hb Hc Hn.
    destruct (cell_ne (Loaded.Table a) (Loaded.Table b)) eqn:Hne.
    + assert (Hin : In (Loaded.mkRelationship
                          (Loaded.Table b) (Loaded.Column b)
                          (Loaded.Table a) (Loaded.Column a))
                       (Loaded.connections_df df)).
      { apply in_loaded_connections_df, in_loaded_connections. exists b, a.
        repeat split; try assumption. apply cell_eq_true. auto. }
      rewrite E in Hin. destruct Hin.
    + now apply cell_ne_false in Hne.
  - intros H. destruct (Loaded.connections_df df) as [|r l] eqn:E;
      [reflexivity|].
    assert (Hr : In r (Loaded.connections_df df)) by (rewrite E; simpl; auto).
    apply in_loaded_connections_df, in_loaded_connections in Hr
      as (row & m & Hrow & Hm & Hc & Ht & _).
    apply cell_eq_true in Hc as [Hc Hn].
    destruct (H m row Hm Hrow Hc Hn) as [Hsame Hpresent].
    assert (Hf : cell_ne (Loaded.Table m) (Loaded.Table row) = false)
      by (apply cell_ne_false; auto).
    congruence.
Qed.

Lemma loaded_selectbox_In options index c :
  Loaded.selectbox options index = Some c -> In c options.
Proof.
  destruct options as [|first rest]; [discriminate|].
  unfold Loaded.selectbox. intros H. injection H as <-.
  destruct (Nat.lt_ge_cases index (List.length (first :: rest))) as [Hlt|Hge].
  - exact (nth_In (first :: rest) first Hlt).
  - change (In (nth index (first :: rest) first) (first :: rest)).
    rewrite (nth_overflow (first :: rest) first Hge). left. reflexivity.
Qed.

(** X14: once a value is selected in the column widget, the list of first
    tables is empty exactly when that value is the missing value; every
    table offered is the table of an identifier row with that column. *)
Theorem loaded_first_table_offered (df : list Loaded.ColumnRecord)
  (index_column : nat) (c : Cell) :
  Loaded.selectbox (Loaded.column_options (Loaded.df_uniqueidentifier df))
                   index_column = Some c ->
  (Loaded.tables_with_column (Loaded.df_uniqueidentifier df) (Some c) = []
   <-> c = NaN)
  /\ (forall index_table a,
        Loaded.selectbox
          (Loaded.tables_with_column (Loaded.df_uniqueidentifier df) (Some c))
          index_table = Some a ->
        In (Loaded.mkColumnRecord a c (Text "uniqueidentifier")) df).
Proof.
  intros Hc.
  apply loaded_selectbox_In, (in_unique same_cell same_cell_eq), in_map_iff
    in Hc as (row & Hcol & Hrow).
  split.
  - split.
    + intros E. destruct (same_cell c NaN) eqn:En;
        [now apply same_cell_eq in En|].
      assert (Hin : In (Loaded.Table row)
                       (Loaded.tables_with_column
                          (Loaded.df_uniqueidentifier df) (Some c))).
      { apply in_loaded_tables_with_column. exists row.
        repeat split; try assumption. intros ->. discriminate En. }
      rewrite E in Hin. destruct Hin.
    + intros ->. apply loaded_tables_with_missing_column.
  - intros index_table a Ha.
    apply loaded_selectbox_In, in_loaded_tables_with_column in Ha
      as (row' & Hrow' & Hc' & _ & Ht').
    apply in_loaded_df_uniqueidentifier in Hrow' as [Hin Hty].
    destruct row' as [t' c' ty']. simpl in *. now subst.
Qed.

Lemma loaded_first_table_offered_witness :
  let df := [ Loaded.mkColumnRecord (Text "Orders") NaN
                                    (Text "uniqueidentifier");
              Loaded.mkColumnRecord (Text "Customers") NaN
                                    (Text "uniqueidentifier") ] in
  Loaded.selectbox (Loaded.column_options (Loaded.df_uniqueidentifier df)) 0
  = Some NaN
  /\ Loaded.tables_with_column (Loaded.df_uniqueidentifier df) (Some NaN) = [].
Proof.
  intros df.
  assert (H : Loaded.selectbox
                (Loaded.column_options (Loaded.df_uniqueidentifier df)) 0
              = Some NaN) by reflexivity.
  split; [exact H|].
  exact (proj2 (proj1 (loaded_first_table_offered df 0 NaN H)) eq_refl).
Defined.

(** * Downstream expansion, row lookup and joinable chart *)

(** C7: the downstream expansion of the relationship graph is one hop.
    The first edge is the edge of the selected row; every edge after it
    starts at the [to_table] of the selected row and leads to the
    [to_table] of a connection leaving that table; and when no connection
    joins a table to itself, as in every inferred frame, no such edge
    starts at the [to_table] of a downstream connection. *)
Theorem downstream_expansion_one_hop (row : Relationship)
  (cdf : list Relationship) :
  let graph := relationship_graph row cdf in
  hd_error (edges graph)
  = Some (Edge (from_table row) (to_table row)
               (from_column row ++ " → " ++ to_column row))
  /\ (forall tail_name head_name label,
        In (Edge tail_name head_name label) (tl (edges graph)) ->
        tail_name = to_table row
        /\ (exists d, In d cdf /\ from_table d = to_table row /\
                      head_name = to_table d)
        /\ ((forall d, In d cdf -> from_table d <> to_table d) ->
            forall d, In d cdf -> from_table d = to_table row ->
                      tail_name <> to_table d)).
Proof.
  intros graph. unfold graph. rewrite relationship_graph_edges.
  split; [reflexivity|].
  intros tail_name head_name label Hin. simpl in Hin.
  apply in_map_iff in Hin as (d & Hd & Hin).
  apply filter_In in Hin as [Hin Hf]. apply String.eqb_eq in Hf.
  injection Hd as <- <- _. repeat split.
  - exists d. auto.
  - intros Hdiff d' Hd' Hf' E. apply (Hdiff d' Hd'). congruence.
Qed.

Lemma downstream_expansion_one_hop_witness :
  let seed := mkRelationship "Orders" "CustomerID" "Customers" "CustomerID" in
  let cdf := connections_df example_df in
  In (Edge "Customers" "Regions" "CustomerID → RegionID")
     (tl (edges (relationship_graph seed cdf)))
  /\ "Customers" = to_table seed
  /\ (forall d, In d cdf -> from_table d = to_table seed ->
                "Customers" <> to_table d).
Proof.
  intros seed cdf.
  assert (H : In (Edge "Customers" "Regions" "CustomerID → RegionID")
                 (tl (edges (relationship_graph seed cdf))))
    by (vm_compute; auto).
  split; [exact H|].
  destruct (proj2 (downstream_expansion_one_hop seed cdf)
              "Customers" "Regions" "CustomerID → RegionID" H)
    as (Htail & _ & Hhop).
  split; [exact Htail|].
  apply Hhop. intros d Hd. now apply (connections_df_distinct_tables example_df).
Defined.

Lemma resolve_Ok_lookup df filter_type p sel r :
  resolve df filter_type p = Ok (sel, r) ->
  narrow df filter_type p = Ok sel
  /\ selected_row (filtered_connections sel)
       (selectbox (map display_key (filtered_connections sel))
                  (pick_relationship p)) = Ok r.
Proof.
  unfold resolve. destruct (narrow df filter_type p) as [sel0|exn];
    [|discriminate].
  unfold bind. intros H.
  assert (Hsel : select_relationship sel0 p = Ok (sel, r)).
  { destruct filter_type; try exact H.
    destruct (connections_df df); [discriminate | exact H]. }
  unfold select_relationship in Hsel.
  destruct (selected_row _ _) as [row|exn] eqn:E; [|discriminate].
  unfold bind in Hsel. injection Hsel as <- <-. auto.
Qed.

(** C8, as stated, fails: when no candidate carries the chosen key the
    run ends in an exception of pandas.  With the column filter, column
    [AuditID] and its only table [Audit], there is no candidate and the
    lookup raises [IndexError]; without filter on a catalog with no shared
    column it raises [ValueError]. *)
Lemma no_candidate_raises_pandas_error :
  let df := (audited_df ++ [ mkColumnRecord "Audit" "AuditID" uid ])%list in
  let p := mkPicks 0 0 2 0 0 0 in
  let lone := [ mkColumnRecord "Orders" "OrderID" uid ] in
  narrow df ColumnName p = Ok (mkSelection None [] [])
  /\ selectbox (map display_key []) (pick_relationship p) = None
  /\ resolve df ColumnName p = Raised "IndexError"
  /\ resolve df ColumnName p <> Raised "NoMatchingRelationship"
  /\ narrow lone FilterNone p = Ok (mkSelection None [] [])
  /\ resolve lone FilterNone p = Raised "ValueError"
  /\ resolve lone FilterNone p <> Raised "NoMatchingRelationship".
Proof. repeat split; discriminate. Qed.

(** C8, amended: in every mode a relationship is resolved only by
    equality, character for character, of the string picked in the last
    widget and the display key of a candidate, and it is the first
    candidate with that key.  When no candidate carries the picked value,
    which happens only when there is no candidate, the run ends in
    [IndexError] with a table or column filter and in [ValueError]
    without filter; the only exceptions of the selection are [KeyError],
    [ValueError] and [IndexError]. *)
Theorem resolve_exact_match (df : list ColumnRecord)
  (filter_type : FilterType) (p : Picks) :
  (forall sel r,
     resolve df filter_type p = Ok (sel, r) ->
     narrow df filter_type p = Ok sel
     /\ selectbox (map display_key (filtered_connections sel))
                  (pick_relationship p) = Some (display_key r)
     /\ exists before after,
          filtered_connections sel = (before ++ r :: after)%list
          /\ Forall (fun x => display_key x <> display_key r) before)
  /\ (forall sel,
        narrow df filter_type p = Ok sel ->
        (forall r, In r (filtered_connections sel) ->
           selectbox (map display_key (filtered_connections sel))
                     (pick_relationship p) <> Some (display_key r)) ->
        filtered_connections sel = []
        /\ resolve df filter_type p
           = Raised (match filter_type with
                     | FilterNone => "ValueError"
                     | _ => "IndexError"
                     end))
  /\ (forall exn,
        resolve df filter_type p = Raised exn ->
        exn = "KeyError" \/ exn = "ValueError" \/ exn = "IndexError").
Proof.
  split; [|split].
  - intros sel r Hres.
    apply resolve_Ok_lookup in Hres as [Hnarrow Hrow].
    pose proof (selected_row_head _ _ _ Hrow) as [_ Hkey].
    split; [assumption|]. split; [assumption|].
    rewrite Hkey in Hrow. apply selected_row_Ok_iff in Hrow
      as (before & after & Hl & _ & Hb).
    exists before, after. auto.
  - intros sel Hnarrow Hnone.
    assert (Hnil : filtered_connections sel = []).
    { destruct (filtered_connections sel) as [|x l] eqn:E; [reflexivity|].
      destruct (selectbox_Some (map display_key (x :: l))
                               (pick_relationship p)) as [k Hk];
        [discriminate|].
      pose proof Hk as Hin.
      apply selectbox_In, in_map_iff in Hin as (r & Hr & Hin).
      exfalso. apply (Hnone r Hin). now rewrite Hr. }
    split; [assumption|].
    destruct filter_type.
    + simpl in Hnarrow. injection Hnarrow as <-. simpl in Hnil.
      unfold resolve, narrow, bind. now rewrite Hnil.
    + rewrite (resolve_filtering df TableName p sel);
        [|discriminate|assumption].
      unfold select_relationship. now rewrite Hnil.
    + rewrite (resolve_filtering df ColumnName p sel);
        [|discriminate|assumption].
      unfold select_relationship. now rewrite Hnil.
  - apply resolve_Raised_inv.
Qed.

Lemma resolve_exact_match_witness :
  let p := mkPicks 2 0 0 0 0 0 in
  let sel := mkSelection (Some (Some "Regions")) ["Regions"; "Customers"]
               [ mkRelationship "Customers" "RegionID" "Regions" "RegionID" ] in
  let r := mkRelationship "Customers" "RegionID" "Regions" "RegionID" in
  resolve example_df TableName p = Ok (sel, r)
  /\ selectbox (map display_key (filtered_connections sel))
               (pick_relationship p)
     = Some "Customers (RegionID) -> Regions (RegionID)".
Proof.
  intros p sel r.
  assert (H : resolve example_df TableName p = Ok (sel, r)) by reflexivity.
  split; [exact H|].
  exact (proj1 (proj2 (proj1 (resolve_exact_match example_df TableName p)
                         sel r H))).
Defined.

(** C9, as stated, fails: with the table filter and the table [Logs],
    which shares no identifier column, there is no joinable table, and
    the run raises [IndexError] at the row lookup: no joinable-tables
    graph is produced, empty or not. *)
Lemma empty_joinable_draws_no_chart :
  let p := mkPicks 3 0 0 0 0 0 in
  selectbox (unique String.eqb (map Table logged_df)) (pick_table p)
  = Some "Logs"
  /\ narrow logged_df TableName p = Ok (mkSelection (Some (Some "Logs")) [] [])
  /\ run logged_df TableName p = Raised "IndexError"
  /\ ~ (exists page g,
          run logged_df TableName p = Ok page
          /\ page_joinable_graph page = Some g
          /\ nodes g = [] /\ edges g = []).
Proof.
  intros p. repeat split.
  intros (page & g & Hrun & _). discriminate Hrun.
Qed.

(** C9, amended: the joinable-tables graph is never built from an empty
    list.  When there is no joinable table the run raises [IndexError]
    before the chart; and whenever the chart is drawn the table filter is
    on, the list of joinable tables is not empty, and the graph holds the
    node of the selected table and one edge per joinable table, so it is
    never empty. *)
Theorem joinable_chart_never_empty (df : list ColumnRecord)
  (filter_type : FilterType) (p : Picks) :
  (forall sel,
     filter_type <> FilterNone ->
     narrow df filter_type p = Ok sel ->
     joinable_tables sel = [] ->
     run df filter_type p = Raised "IndexError")
  /\ (forall page g,
        run df filter_type p = Ok page ->
        page_joinable_graph page = Some g ->
        exists t,
          filter_type = TableName
          /\ selected_table (page_selection page) = Some (Some t)
          /\ joinable_tables (page_selection page) <> []
          /\ g = joinable_tables_graph t (joinable_tables (page_selection page))
          /\ In (Node t t "box") (nodes g)
          /\ List.length (edges g)
             = List.length (joinable_tables (page_selection page))
          /\ edges g <> []).
Proof.
  split.
  - intros sel Hmode Hsel Hjoin.
    destruct (narrow_filtering_inv df filter_type p sel Hmode Hsel)
      as (table & narrowed & _ & Hj & Hf).
    rewrite Hjoin in Hj. symmetry in Hj. apply to_tables_nil_iff in Hj.
    rewrite Hj in Hf. simpl in Hf.
    unfold run. rewrite (resolve_filtering df filter_type p sel Hmode Hsel).
    unfold select_relationship. rewrite Hf. reflexivity.
  - intros page g Hrun Hgraph.
    apply run_Ok_inv in Hrun as (Hres & _ & Hchart).
    rewrite Hgraph in Hchart.
    apply resolve_Ok_inv in Hres as (Hnarrow & Hin & _).
    destruct (selected_table (page_selection page)) as [[t|]|] eqn:Et;
      try discriminate Hchart.
    injection Hchart as ->.
    assert (Hmode : filter_type = TableName).
    { destruct filter_type; [| reflexivity |].
      - simpl in Hnarrow. injection Hnarrow as Hsel.
        rewrite <- Hsel in Et. discriminate Et.
      - simpl in Hnarrow. unfold narrow_by_column in Hnarrow.
        destruct (getitem_columns (connections_df df)); [|discriminate].
        unfold bind in Hnarrow. injection Hnarrow as Hsel.
        rewrite <- Hsel in Et. discriminate Et. }
    assert (Hjoin : joinable_tables (page_selection page) <> []).
    { intros E.
      destruct (narrow_filtering_inv df filter_type p (page_selection page))
        as (table & narrowed & _ & Hj & Hf);
        [rewrite Hmode; discriminate | assumption |].
      rewrite E in Hj. symmetry in Hj. apply to_tables_nil_iff in Hj.
      rewrite Hj in Hf. simpl in Hf. rewrite Hf in Hin. destruct Hin. }
    exists t. repeat split; try assumption.
    + unfold nodes. rewrite joinable_tables_graph_body. simpl. auto.
    + rewrite joinable_tables_graph_edges. apply List.length_map.
    + rewrite joinable_tables_graph_edges. intros E.
      apply map_eq_nil in E. contradiction.
Qed.

Lemma joinable_chart_never_empty_witness :
  let p := mkPicks 0 0 0 0 0 0 in
  exists page g,
    run example_df TableName p = Ok page
    /\ page_joinable_graph page = Some g
    /\ edges g <> [].
Proof.
  intros p.
  eexists. eexists. split; [reflexivity|]. split; [reflexivity|].
  destruct (proj2 (joinable_chart_never_empty example_df TableName p)
              _ _ eq_refl eq_refl) as (t & _ & _ & _ & _ & _ & _ & H).
  exact H.
Defined.
